(** * Raw-data dashboard: API client, synchronization core and aggregation

    A shallow embedding of [src/unnamed/part_000] (the API client:
    [requestJson], [getSummary], [getFilePreview]) and of the [App]
    component of [src/ui/raw-data-dashboard/src/App.jsx] (the refresh flow,
    the preview effect with its cancellation flag, the derived check
    aggregates, [formatBytes], and what the error banner and the preview
    card render of the state), followed by the properties of the
    specification that concern them and by further properties of the code.

    JavaScript numbers are IEEE-754 binary64 values; they are modelled with
    the standard library's [spec_float] at precision 53, so that
    [passing / checks.length * 100] is evaluated with the two roundings the
    program performs.

    The component is modelled as a transition system: its six state cells,
    the calls suspended at an [await], and one transition per event (a
    click, a promise settling).  A parsed response body is taken to be an
    object of the expected shape whose properties may be missing. *)

From Stdlib Require Import ZArith Lia Bool List String Ascii DecimalString.
From Stdlib Require Import SpecFloat.
From stdpp Require Import base option list strings gmap.

Local Open Scope Z_scope.

(* ===================================================================== *)
(** * Part I: definitions *)
(* ===================================================================== *)

(** ** JavaScript numbers *)

Module Number.

Definition prec : Z := 53.
Definition emax : Z := 1024.

(** The Number whose value is the integer [z] (exact below [2^53]). *)
Definition of_Z (z : Z) : spec_float := binary_normalize prec emax z 0 false.

Definition of_nat (n : nat) : spec_float := of_Z (Z.of_nat n).

(** [x / y] and [x * y] on Numbers: round to nearest, ties to even. *)
Definition div (x y : spec_float) : spec_float := SFdiv prec emax x y.
Definition mul (x y : spec_float) : spec_float := SFmul prec emax x y.

(** [Math.round(x)]: the integral Number closest to [x], the one closer to
    +infinity on a tie; NaN, the infinities and the zeros are returned
    unchanged, and a negative [x >= -0.5] gives [-0].  A finite Number
    with a non-negative exponent is already integral; otherwise its value
    is [v * 2^e] with [e < 0], and [floor (v * 2^e + 1/2)] is
    [(2 * v + 2^(-e)) / 2^(1 - e)]. *)
Definition Math_round (x : spec_float) : spec_float :=
  match x with
  | S754_finite s m e =>
      if 0 <=? e then x
      else
        let v := cond_Zopp s (Zpos m) in
        binary_normalize prec emax ((2 * v + 2 ^ (- e)) / 2 ^ (1 - e)) 0 s
  | _ => x
  end.

End Number.

(** ** Reading the rounding of [spec_float] arithmetically *)

Module Rounding.

(** Where the remainder [r] of a division by [B] lies: zero, or below,
    at, or above one half. *)
Definition loc_of (r B : Z) : location :=
  if r =? 0 then loc_Exact else loc_Inexact (2 * r ?= B).

(** [m] with location [l] is the truncated quotient [A / B]. *)
Definition located (A B m : Z) (l : location) : Prop :=
  0 < B /\ 0 <= A /\ m = A / B /\ l = loc_of (A mod B) B.

Definition rec_located (A B : Z) (mrs : shr_record) : Prop :=
  located A B (shr_m mrs) (loc_of_shr_record mrs).

(** The integer nearest to [A / B], the even one on a tie. *)
Definition rne (A B : Z) : Z :=
  let q := A / B in
  match 2 * (A mod B) ?= B with
  | Lt => q
  | Eq => if Z.even q then q else q + 1
  | Gt => q + 1
  end.

End Rounding.

(** ** Data model *)

(** A thrown value as the [catch] clauses read it: only [err.message] is
    looked at ([None] when the thrown value has no such property). *)
Record JsError := mkError { message : option string }.

Definition Result (T : Type) : Type := JsError + T.

Record FileRecord := mkFile {
  file_name : string;
  rows : option Z;
  columns : option Z;
  file_size_bytes : option Z;
  is_csv : bool
}.

(** [status] is whatever the backend sent; [None] when the property is
    absent or is not a string. *)
Record CheckRecord := mkCheck {
  check_id : string;
  check_file : string;
  title : string;
  status : option string;
  details : string
}.

Record SummaryStats := mkStats {
  total_files : option Z;
  csv_files : option Z;
  total_rows : option Z;
  total_size_bytes : option Z;
  scanned_at : option string
}.

(** The parsed summary body.  Each property may be missing, which is why
    the program reads them through [?.] and [|| []]. *)
Record SummaryPayload := mkSummary {
  summary : option SummaryStats;
  files : option (list FileRecord);
  checks : option (list CheckRecord)
}.

Definition Row : Type := list (string * string).

(** What [setPreview] stores: a parsed preview body, or the object
    [{ error: err.message }] built by the [catch] clause. *)
Record PreviewPayload := mkPreview {
  preview_rows : option (list Row);
  preview_error : option string
}.

(** ** Aggregation (App.jsx, lines 95-102) *)

(** [c.status === s] for a string literal [s]. *)
Definition status_is (s : string) (c : CheckRecord) : bool :=
  match status c with
  | Some t => String.eqb t s
  | None => false
  end.

(** [payload?.checks || []] *)
Definition checks_of (p : option SummaryPayload) : list CheckRecord :=
  match p with
  | Some d => match checks d with Some cs => cs | None => [] end
  | None => []
  end.

(** [payload?.files || []] *)
Definition files_of (p : option SummaryPayload) : list FileRecord :=
  match p with
  | Some d => match files d with Some fs => fs | None => [] end
  | None => []
  end.

Definition passing (cs : list CheckRecord) : nat :=
  length (List.filter (status_is "pass") cs).

Definition warn (cs : list CheckRecord) : nat :=
  length (List.filter (status_is "warn") cs).

Definition fail (cs : list CheckRecord) : nat :=
  length (List.filter (status_is "fail") cs).

(** [checks.length === 0 ? 0 : Math.round((passing / checks.length) * 100)] *)
Definition checkRate (cs : list CheckRecord) : spec_float :=
  if Nat.eqb (length cs) 0 then Number.of_Z 0
  else
    Number.Math_round
      (Number.mul
         (Number.div (Number.of_nat (passing cs)) (Number.of_nat (length cs)))
         (Number.of_Z 100)).

(** A JavaScript array holds fewer than [2^32] elements. *)
Definition array_length_ok {A : Type} (l : list A) : Prop :=
  Z.of_nat (length l) < 2 ^ 32.

(** ** The aggregates in the words of the specification *)

Module Spec.

(** "count where status == s" *)
Fixpoint count_status (s : string) (cs : list CheckRecord) : nat :=
  match cs with
  | [] => 0
  | c :: cs' =>
      (if decide (status c = Some s) then 1 else 0) + count_status s cs'
  end.

(** A check whose status is one of the three recognized values. *)
Definition recognized (c : CheckRecord) : Prop :=
  status c = Some "pass" \/ status c = Some "warn" \/ status c = Some "fail".

(** The two roundings of the quotient [a / b] the specification allows. *)
Definition round_half_up (a b : Z) : Z := (2 * a + b) / (2 * b).
Definition round_half_even (a b : Z) : Z := Rounding.rne a b.

(** "0 if checks.length == 0, else round(passing / checks.length * 100)",
    over the rationals, for a rounding [round] of quotients. *)
Definition checkRate (round : Z -> Z -> Z) (cs : list CheckRecord) : Z :=
  match cs with
  | [] => 0
  | _ => round (Z.of_nat (count_status "pass" cs) * 100)
               (Z.of_nat (length cs))
  end.

(** The exact value of [passing / checks.length * 100] lies halfway between
    two integers. *)
Definition halfway (cs : list CheckRecord) : Prop :=
  (2 * (Z.of_nat (count_status "pass" cs) * 100) + Z.of_nat (length cs))
    mod (2 * Z.of_nat (length cs)) = 0.

End Spec.

(** ** API client (src/unnamed/part_000) *)

Module Api.

(** What [requestJson] reads of a [Response]: [response.status] and the
    body text.  [response.ok] is the getter of the Fetch standard: true
    exactly for a status in the range 200-299. *)
Record Response := mkResponse { status : nat; text : string }.

Definition ok (r : Response) : bool :=
  Nat.leb 200 (status r) && Nat.leb (status r) 299.

(** The promise returned by [fetch]: rejected (network failure), or
    fulfilled with a response of any status. *)
Inductive FetchResult :=
| Rejected (e : JsError)
| Responded (r : Response).

(** [import.meta.env.VITE_API_BASE || 'http://localhost:8000']: the value
    the clients below receive as [API_BASE]. *)
Definition configured_base (VITE_API_BASE : option string) : string :=
  match VITE_API_BASE with
  | Some base => if String.eqb base "" then "http://localhost:8000" else base
  | None => "http://localhost:8000"
  end.

(** A non-negative integer inside a template literal: its decimal digits. *)
Definition number_to_string (n : nat) : string :=
  NilEmpty.string_of_uint (Nat.to_uint n).

Section Client.

(** The environment of the module: the configured base URL, the
    built-in [encodeURIComponent], the transport, and [response.json()]
    for each of the two payload shapes. *)
Variable API_BASE : string.
Variable encodeURIComponent : string -> string.
Variable fetch : string -> FetchResult.
Variable json_summary : string -> Result SummaryPayload.
Variable json_preview : string -> Result PreviewPayload.

Definition requestJson {T : Type} (json : string -> Result T)
    (url : string) : Result T :=
  match fetch url with
  | Rejected e => inl e
  | Responded response =>
      if negb (ok response) then
        let message := text response in
        inl (mkError (Some ("Request failed ("
                              +:+ number_to_string (status response)
                              +:+ "): " +:+ message)))
      else json (text response)
  end.

Definition summary_url : string :=
  API_BASE +:+ "/api/raw/dashboard/summary".

Definition getSummary : Result SummaryPayload :=
  requestJson json_summary summary_url.

Definition preview_url (fileName : string) (rows : nat) : string :=
  API_BASE +:+ "/api/raw/dashboard/file/" +:+ encodeURIComponent fileName
           +:+ "?rows=" +:+ number_to_string rows.

(** [rows] defaults to 20 at the call site. *)
Definition getFilePreview (fileName : string) (rows : nat)
    : Result PreviewPayload :=
  requestJson json_preview (preview_url fileName rows).

End Client.

End Api.

(** ** Synchronization core (App.jsx, lines 36-93) *)

Module App.

(** The six [useState] cells of [App]. *)
Record State := mkState {
  loading : bool;
  error : string;
  payload : option SummaryPayload;
  selectedFile : string;
  preview : option PreviewPayload;
  previewLoading : bool
}.

Definition setLoading (b : bool) (s : State) : State :=
  mkState b (error s) (payload s) (selectedFile s) (preview s) (previewLoading s).
Definition setError (e : string) (s : State) : State :=
  mkState (loading s) e (payload s) (selectedFile s) (preview s) (previewLoading s).
Definition setPayload (p : option SummaryPayload) (s : State) : State :=
  mkState (loading s) (error s) p (selectedFile s) (preview s) (previewLoading s).
Definition setSelectedFile (f : string) (s : State) : State :=
  mkState (loading s) (error s) (payload s) f (preview s) (previewLoading s).
Definition setPreview (p : option PreviewPayload) (s : State) : State :=
  mkState (loading s) (error s) (payload s) (selectedFile s) p (previewLoading s).
Definition setPreviewLoading (b : bool) (s : State) : State :=
  mkState (loading s) (error s) (payload s) (selectedFile s) (preview s) b.

(** A string in a boolean position: only the empty string is falsy. *)
Definition truthy (s : string) : bool := negb (String.eqb s "").

(** One activation of [run] inside the preview effect, suspended at
    [await getFilePreview(selectedFile, 20)]: the file it asked for and
    the [cancelled] variable of its closure.  [issued] is a history
    variable that no transition reads: the value of [generation] when the
    request was issued. *)
Record PreviewRun := mkRun {
  run_file : string;
  cancelled : bool;
  issued : nat
}.

Definition cancel (r : PreviewRun) : PreviewRun :=
  mkRun (run_file r) true (issued r).

(** The component together with what is in flight.
    - [refreshes]: the calls of [refresh] suspended at
      [await getSummary()], each with the [selectedFile] its closure
      captured (the value of the render that created that [refresh]);
    - [previews]: the suspended preview runs;
    - [cleanup]: the cleanup function React holds for the preview effect,
      identified by the run whose [cancelled] it sets;
    - [generation]: history variable, the number of times [selectedFile]
      has changed. *)
Record World := mkWorld {
  ui : State;
  refreshes : gmap nat string;
  previews : gmap nat PreviewRun;
  cleanup : option nat;
  next_id : nat;
  generation : nat
}.

Definition with_ui (f : State -> State) (w : World) : World :=
  mkWorld (f (ui w)) (refreshes w) (previews w) (cleanup w) (next_id w)
          (generation w).

(** *** Refresh flow (lines 44-58) *)

(** [refresh()] up to its [await]: [setLoading(true); setError('')] and
    the request is issued. *)
Definition refresh (w : World) : World :=
  mkWorld (setError "" (setLoading true (ui w)))
          (<[next_id w := selectedFile (ui w)]> (refreshes w))
          (previews w) (cleanup w) (S (next_id w)) (generation w).

(** *** Preview effect (lines 64-93) *)

(** The cleanup returned by the previous activation: [cancelled = true]. *)
Definition run_cleanup (w : World) : World :=
  match cleanup w with
  | Some i =>
      mkWorld (ui w) (refreshes w) (alter cancel i (previews w)) None
              (next_id w) (generation w)
  | None => w
  end.

(** The effect body for the current [selectedFile]. *)
Definition preview_effect (w : World) : World :=
  if truthy (selectedFile (ui w)) then
    mkWorld (setPreviewLoading true (ui w)) (refreshes w)
            (<[next_id w := mkRun (selectedFile (ui w)) false (generation w)]>
               (previews w))
            (Some (next_id w)) (S (next_id w)) (generation w)
  else
    mkWorld (setPreview None (ui w)) (refreshes w) (previews w) None
            (next_id w) (generation w).

(** [setSelectedFile(f)] and the render that follows: nothing happens when
    the value is the same; otherwise the dependency [selectedFile] changed,
    so the old cleanup runs and then the effect. *)
Definition select (f : string) (w : World) : World :=
  if String.eqb f (selectedFile (ui w)) then w
  else
    preview_effect
      (run_cleanup
         (mkWorld (setSelectedFile f (ui w)) (refreshes w) (previews w)
                  (cleanup w) (next_id w) (S (generation w)))).

(** [refresh] after [await getSummary()] fulfilled with [data];
    [captured] is the [selectedFile] of its closure. *)
Definition refresh_resolved (captured : string) (data : SummaryPayload)
    (w : World) : World :=
  let w1 := with_ui (setPayload (Some data)) w in
  let w2 :=
    match files data with
    | Some (first :: _) =>
        if negb (truthy captured) then select (file_name first) w1 else w1
    | _ => w1
    end in
  with_ui (setLoading false) w2.

(** [err.message || 'Failed to load dashboard'] *)
Definition error_text (err : JsError) : string :=
  match message err with
  | Some m => if truthy m then m else "Failed to load dashboard"
  | None => "Failed to load dashboard"
  end.

(** [refresh] after [await getSummary()] rejected with [err]. *)
Definition refresh_rejected (err : JsError) (w : World) : World :=
  with_ui (setLoading false) (with_ui (setError (error_text err)) w).

(** [run] after [await getFilePreview(...)] settled. *)
Definition preview_resolved (r : PreviewRun) (next : PreviewPayload)
    (w : World) : World :=
  if cancelled r then w
  else with_ui (setPreviewLoading false) (with_ui (setPreview (Some next)) w).

Definition preview_rejected (r : PreviewRun) (err : JsError)
    (w : World) : World :=
  if cancelled r then w
  else
    with_ui (setPreviewLoading false)
            (with_ui (setPreview (Some (mkPreview None (message err)))) w).

(** *** Events *)

(** - [ClickRefresh]: the Refresh button, which is [disabled] while
      [loading];
    - [ClickRow name]: a row of the files table, one per file of the
      stored payload;
    - [SummarySettled i r], [PreviewSettled i r]: the promise awaited by
      the suspended call [i] settles. *)
Inductive Event :=
| ClickRefresh
| ClickRow (name : string)
| SummarySettled (i : nat) (r : Result SummaryPayload)
| PreviewSettled (i : nat) (r : Result PreviewPayload).

Definition has_row (name : string) (s : State) : bool :=
  existsb (fun f => String.eqb (file_name f) name) (files_of (payload s)).

Definition drop_refresh (i : nat) (w : World) : World :=
  mkWorld (ui w) (delete i (refreshes w)) (previews w) (cleanup w)
          (next_id w) (generation w).

Definition drop_preview (i : nat) (w : World) : World :=
  mkWorld (ui w) (refreshes w) (delete i (previews w)) (cleanup w)
          (next_id w) (generation w).

Definition step (w : World) (e : Event) : option World :=
  match e with
  | ClickRefresh =>
      if loading (ui w) then None else Some (refresh w)
  | ClickRow name =>
      if has_row name (ui w) then Some (select name w) else None
  | SummarySettled i r =>
      match refreshes w !! i with
      | Some captured =>
          Some match r with
               | inr data => refresh_resolved captured data (drop_refresh i w)
               | inl err => refresh_rejected err (drop_refresh i w)
               end
      | None => None
      end
  | PreviewSettled i r =>
      match previews w !! i with
      | Some pr =>
          Some match r with
               | inr next => preview_resolved pr next (drop_preview i w)
               | inl err => preview_rejected pr err (drop_preview i w)
               end
      | None => None
      end
  end.

Definition init : World :=
  mkWorld (mkState false "" None "" None false) ∅ ∅ None 0 0.

(** Mounting runs the two effects in order: [refresh()], then the preview
    effect for the initial (empty) selection. *)
Definition mount : World := preview_effect (refresh init).

Fixpoint run (w : World) (evs : list Event) : option World :=
  match evs with
  | [] => Some w
  | e :: evs' =>
      match step w e with
      | Some w' => run w' evs'
      | None => None
      end
  end.

Definition reachable (w : World) : Prop :=
  exists evs, run mount evs = Some w.




(** [run], restricted to the steps after which no file is selected. *)
Fixpoint run_unselected (w : World) (evs : list Event) : option World :=
  match evs with
  | [] => Some w
  | e :: evs' =>
      match step w e with
      | Some w' =>
          if truthy (selectedFile (ui w')) then None
          else run_unselected w' evs'
      | None => None
      end
  end.

End App.

(** ** Invariants of the synchronization core *)

Module Inv.

Import App.

(** The preview runs in flight: identifiers are fresh, no run was issued
    in the future, and a run whose [cancelled] is still false is the one
    the pending cleanup refers to, was issued for the current selection,
    and keeps [previewLoading] set. *)
Record preview_inv (w : World) : Prop := mkPreviewInv {
  pv_fresh : forall i r, previews w !! i = Some r -> (i < next_id w)%nat;
  pv_issued : forall i r,
      previews w !! i = Some r -> (issued r <= generation w)%nat;
  pv_live : forall i r,
      previews w !! i = Some r -> cancelled r = false ->
      cleanup w = Some i /\ issued r = generation w /\
      run_file r = selectedFile (ui w) /\ previewLoading (ui w) = true;
  pv_cancelled : forall i r,
      previews w !! i = Some r -> cancelled r = true ->
      (issued r < generation w)%nat
}.

(** A run is superseded when the selection changed after it was issued. *)
Definition superseded (w : World) (r : PreviewRun) : Prop :=
  issued r <> generation w.

(** What a settled preview request asks [setPreview] to store. *)
Definition outcome (res : Result PreviewPayload) : PreviewPayload :=
  match res with
  | inr next => next
  | inl err => mkPreview None (message err)
  end.

(** What the preview effect does from [w] to [w'] when the selection has
    become empty: the preview is cleared, [previewLoading] is not written,
    and no request is issued (no identifier is consumed, and the requests in
    flight are the same ones, asking for the same files). *)
Definition only_clears_preview (w w' : World) : Prop :=
  selectedFile (ui w') = "" /\
  preview (ui w') = None /\
  previewLoading (ui w') = previewLoading (ui w) /\
  next_id w' = next_id w /\
  dom (previews w') = dom (previews w) /\
  (forall i r, previews w' !! i = Some r ->
               exists r0, previews w !! i = Some r0 /\
                          run_file r = run_file r0).

(** Nothing is selected, [previewLoading] is set, the preview is empty
    and every run in flight is cancelled. *)
Record stuck (w : World) : Prop := mkStuck {
  st_selected : selectedFile (ui w) = "";
  st_loading : previewLoading (ui w) = true;
  st_preview : preview (ui w) = None;
  st_cancelled : forall i r, previews w !! i = Some r -> cancelled r = true
}.

(** Either no [refresh] is suspended and [loading] is clear, or exactly one
    is and [loading] is set. *)
Definition one_refresh (w : World) : Prop :=
  (refreshes w = ∅ /\ loading (ui w) = false) \/
  (exists i c, refreshes w = {[i := c]} /\ loading (ui w) = true).


End Inv.

(** ** Concrete data used to exercise the statements *)

Module Sample.

Import App.

Definition file (name : string) : FileRecord :=
  mkFile name (Some 10) (Some 3) (Some 2048) true.

Definition check (s : string) : CheckRecord :=
  mkCheck "c" "a.csv" "row count" (Some s) "".

(** The files of the default-selection scenario. *)
Definition two_files : SummaryPayload :=
  mkSummary None (Some [file "a.csv"; file "b.csv"]) (Some []).

(** A listing in which one file has an empty name: the only way for the
    selection to become empty again. *)
Definition with_unnamed : SummaryPayload :=
  mkSummary None (Some [file "a.csv"; file ""; file "b.csv"]) (Some []).

Definition rows_of (name : string) : PreviewPayload :=
  mkPreview (Some [[("file", name)]]) None.

Definition after (evs : list Event) : World :=
  match run mount evs with
  | Some w => w
  | None => mount
  end.

(** ["a.csv"] selected by default, then ["b.csv"] clicked while the
    preview of ["a.csv"] is still in flight. *)
Definition a_then_b : list Event :=
  [SummarySettled 0 (inr two_files); ClickRow "b.csv"].

(** ["a.csv"] selected by default, its preview still in flight. *)
Definition a_loading : list Event :=
  [SummarySettled 0 (inr with_unnamed)].



(** The first summary request fails. *)
Definition first_load_failed : list Event :=
  [SummarySettled 0 (inl (mkError (Some "boom")))].

(** The first summary request fails and Refresh is clicked. *)
Definition retry_after_failure : list Event :=
  [SummarySettled 0 (inl (mkError (Some "boom"))); ClickRefresh].

(** A summary arrives, a second request for it fails. *)
Definition loaded_then_failed : list Event :=
  [SummarySettled 0 (inr two_files); ClickRefresh;
   SummarySettled 2 (inl (mkError None))].


(** The checks of the aggregation scenario. *)
Definition four_checks : list CheckRecord :=
  [check "pass"; check "pass"; check "warn"; check "fail"].

(** Forty checks of which twenty-three pass. *)
Definition forty_checks : list CheckRecord :=
  repeat (check "pass") 23 ++ repeat (check "fail") 17.

End Sample.

(** ** Formatting of sizes (App.jsx, lines 4-15) *)

Module Format.

(** [units] of [formatBytes]. *)
Definition units : list string := ["B"; "KB"; "MB"; "GB"].

(** [bytes || 0] for a size that is a Number or is missing ([None]):
    [undefined], [null], the zeros and NaN are falsy. *)
Definition or_zero (bytes : option spec_float) : spec_float :=
  match bytes with
  | Some (S754_finite s m e) => S754_finite s m e
  | Some (S754_infinity s) => S754_infinity s
  | _ => S754_zero false
  end.

(** [value >= 1024] *)
Definition ge_1024 (value : spec_float) : bool :=
  SFleb (Number.of_Z 1024) value.

(** The loop [while (value >= 1024 && index < units.length - 1)]; [fuel]
    bounds the number of iterations. *)
Fixpoint scale (fuel : nat) (value : spec_float) (index : nat)
    : spec_float * nat :=
  match fuel with
  | O => (value, index)
  | S fuel' =>
      if ge_1024 value && Nat.ltb index (length units - 1) then
        scale fuel' (Number.div value (Number.of_Z 1024)) (S index)
      else (value, index)
  end.

(** Decimal digits of a non-negative integer. *)
Definition digits (n : Z) : string :=
  NilEmpty.string_of_uint (N.to_uint (Z.to_N n)).

Fixpoint zeros (k : nat) : string :=
  match k with
  | O => ""
  | S k' => String "0" (zeros k')
  end.

(** Steps 11.b and 11.c of [Number.prototype.toFixed]: the digits of [n]
    with a point before the last [f] of them, padded with zeros on the left
    to at least [f + 1] digits. *)
Definition fixed_digits (n : Z) (f : nat) : string :=
  let m := digits n in
  if Nat.eqb f 0 then m
  else
    let m' :=
      if Nat.leb (String.length m) f
      then zeros (f + 1 - String.length m) +:+ m
      else m in
    let k := String.length m' in
    String.substring 0 (k - f) m' +:+ "." +:+ String.substring (k - f) f m'.

(** Step 11.a: the integer [n] for which [n / 10^f] is closest to
    [m * 2^e], the larger one on a tie. *)
Definition scaled_round (m : positive) (e : Z) (f : nat) : Z :=
  if 0 <=? e then Z.pos m * 2 ^ e * 10 ^ Z.of_nat f
  else (2 * (Z.pos m * 10 ^ Z.of_nat f) + 2 ^ (- e)) / 2 ^ (1 - e).

(** [m * 2^e >= 10^21] *)
Definition ge_1e21 (m : positive) (e : Z) : bool :=
  if 0 <=? e then 10 ^ 21 <=? Z.pos m * 2 ^ e
  else 10 ^ 21 * 2 ^ (- e) <=? Z.pos m.

Section ToFixed.

(** [Number::toString] on the finite Numbers of magnitude [10^21] or more,
    the one case in which [toFixed] defers to it with a result that depends
    on the shortest decimal representation. *)
Variable toString_large : spec_float -> string.

(** [x.toFixed(f)] for [0 <= f <= 100]. *)
Definition toFixed (x : spec_float) (f : nat) : string :=
  match x with
  | S754_nan => "NaN"
  | S754_infinity s => if s then "-Infinity" else "Infinity"
  | S754_zero _ => fixed_digits 0 f
  | S754_finite s m e =>
      (if s then "-" else "")
      +:+ (if ge_1e21 m e then toString_large (S754_finite false m e)
           else fixed_digits (scaled_round m e f) f)
  end.

Definition formatBytes (bytes : option spec_float) : string :=
  let '(value, index) := scale (length units - 1) (or_zero bytes) 0 in
  toFixed value (if Nat.eqb index 0 then 0 else 2)
  +:+ " " +:+ nth index units "undefined".

End ToFixed.

(** The size [b] written in exact arithmetic: whole bytes below 1024, and
    otherwise [b / 1024^k] rounded half up to two decimals, for the largest
    unit [k <= 3] with [1024^k <= b]. *)
Definition exact_label (b : Z) : string :=
  if b <? 1024 then digits b +:+ " B"
  else if b <? 1024 ^ 2 then
    fixed_digits (Spec.round_half_up (100 * b) 1024) 2 +:+ " KB"
  else if b <? 1024 ^ 3 then
    fixed_digits (Spec.round_half_up (100 * b) (1024 ^ 2)) 2 +:+ " MB"
  else fixed_digits (Spec.round_half_up (100 * b) (1024 ^ 3)) 2 +:+ " GB".

End Format.

(** ** What [App] renders of its state (App.jsx, lines 116 and 203-219) *)

Module View.

Import App.

(** The "File Preview" card. *)
Inductive PreviewArea :=
| SelectPrompt
| LoadingPreview
| ErrorText (text : string)
| PreviewRows (rows : list Row).

Definition preview_area (s : State) : PreviewArea :=
  if truthy (selectedFile s) then
    if previewLoading s then LoadingPreview
    else
      match preview s with
      | Some p =>
          match preview_error p with
          | Some text =>
              if truthy text then ErrorText text
              else PreviewRows (default [] (preview_rows p))
          | None => PreviewRows (default [] (preview_rows p))
          end
      | None => PreviewRows []
      end
  else SelectPrompt.

(** [{error && <p className="error">{error}</p>}] *)
Definition error_banner (s : State) : option string :=
  if truthy (error s) then Some (error s) else None.

End View.

(** ** The file a stored preview came from *)

Module Provenance.

Import App.




(** Every run in flight asks for a file with a name. *)
Definition runs_named (w : World) : Prop :=
  forall i r, previews w !! i = Some r -> truthy (run_file r) = true.

(** A run in flight whose [cancelled] is still false. *)
Definition live (w : World) (i : nat) (r : PreviewRun) : Prop :=
  previews w !! i = Some r /\ cancelled r = false.

(** While a file is selected and [previewLoading] is set, a run is live. *)
Definition loading_has_run (w : World) : Prop :=
  truthy (selectedFile (ui w)) = true -> previewLoading (ui w) = true ->
  exists i r, live w i r.



(** No error is stored while a refresh is in flight. *)
Definition quiet_while_loading (w : World) : Prop :=
  loading (ui w) = true -> error (ui w) = "".

(** The part of a world the preview flow reads and writes, request
    identifiers apart. *)
Definition preview_side (w : World)
    : string * option PreviewPayload * bool * gmap nat PreviewRun
      * option nat * nat :=
  (selectedFile (ui w), preview (ui w), previewLoading (ui w), previews w,
   cleanup w, generation w).


(** The body of the last summary request of [evs] that succeeded, [start]
    when there is none. *)
Fixpoint last_summary (evs : list Event) (start : option SummaryPayload)
    : option SummaryPayload :=
  match evs with
  | [] => start
  | SummarySettled _ (inr d) :: evs' => last_summary evs' (Some d)
  | _ :: evs' => last_summary evs' start
  end.


End Provenance.

(* ===================================================================== *)
(** * Part II: properties *)
(* ===================================================================== *)

(** ** Binary64 arithmetic on the values the aggregation meets *)

Section NumberFacts.

Import Rounding.

Lemma digits2_pos_bounds (p : positive) :
  2 ^ (Z.pos (digits2_pos p) - 1) <= Z.pos p < 2 ^ Z.pos (digits2_pos p).
Proof.
  induction p as [p IH | p IH |]; simpl digits2_pos.
  - rewrite Pos2Z.inj_succ, Z.pow_succ_r by lia.
    replace (Z.succ (Z.pos (digits2_pos p)) - 1) with (Z.succ (Z.pos (digits2_pos p) - 1)) by lia.
    rewrite Z.pow_succ_r by lia. lia.
  - rewrite Pos2Z.inj_succ, Z.pow_succ_r by lia.
    replace (Z.succ (Z.pos (digits2_pos p)) - 1) with (Z.succ (Z.pos (digits2_pos p) - 1)) by lia.
    rewrite Z.pow_succ_r by lia. lia.
  - simpl. lia.
Qed.

Lemma Zdigits2_bounds (m : Z) :
  0 < m -> 2 ^ (Zdigits2 m - 1) <= m < 2 ^ Zdigits2 m.
Proof. destruct m; try lia. intros _. apply digits2_pos_bounds. Qed.

Lemma Zdigits2_unique (m d : Z) :
  2 ^ (d - 1) <= m < 2 ^ d -> 0 < d -> Zdigits2 m = d.
Proof.
  intros [Hlo Hhi] Hd.
  assert (Hm : 0 < m) by (pose proof (Z.pow_pos_nonneg 2 (d - 1)); lia).
  destruct (Zdigits2_bounds m Hm) as [Hlo' Hhi'].
  assert (Hd' : 0 < Zdigits2 m) by (destruct m; simpl; lia).
  destruct (Z.lt_trichotomy (Zdigits2 m) d) as [Hlt | [Heq | Hgt]]; [| exact Heq |].
  - assert (2 ^ Zdigits2 m <= 2 ^ (d - 1)) by (apply Z.pow_le_mono_r; lia). lia.
  - assert (2 ^ d <= 2 ^ (Zdigits2 m - 1)) by (apply Z.pow_le_mono_r; lia). lia.
Qed.

Lemma loc_of_record (m : Z) (l : location) :
  loc_of_shr_record (shr_record_of_loc m l) = l /\ shr_m (shr_record_of_loc m l) = m.
Proof. destruct l as [| []]; simpl; auto. Qed.

Lemma record_of_loc (mrs : shr_record) :
  shr_record_of_loc (shr_m mrs) (loc_of_shr_record mrs) = mrs.
Proof. destruct mrs as [m [] []]; reflexivity. Qed.

Lemma shr_1_located (A B : Z) (mrs : shr_record) :
  rec_located A B mrs -> rec_located A (2 * B) (shr_1 mrs).
Proof.
  unfold rec_located, located. intros (HB & HA & Hm & Hl).
  assert (Hdd : A / (2 * B) = (A / B) / 2)
    by (rewrite (Z.mul_comm 2 B), Z.div_div by lia; reflexivity).
  assert (Hmod : A mod (2 * B) = A mod B + B * ((A / B) mod 2)).
  { rewrite (Z.mul_comm 2 B). rewrite Z.rem_mul_r by lia. reflexivity. }
  pose proof (Z.mod_pos_bound A B HB) as Hr.
  pose proof (Z.mod_pos_bound (A / B) 2 ltac:(lia)) as Hr2.
  pose proof (Z.div_mod (A / B) 2 ltac:(lia)) as Hdm.
  assert (Hq : 0 <= A / B) by (apply Z.div_pos; lia).
  destruct mrs as [m r s]. simpl in Hm, Hl. subst m.
  split; [lia |]. split; [exact HA |].
  rewrite Hdd, Hmod.
  remember (A / B) as q eqn:Eqq.
  remember (A mod B) as rr eqn:Err.
  unfold loc_of in *.
  destruct q as [| q | q]; [| | lia].
  - simpl. change (0 mod 2) with 0 in *. rewrite Z.mul_0_r, Z.add_0_r.
    destruct (Z.eqb_spec rr 0) as [-> | Hne].
    + destruct r, s; simpl in *; try discriminate. split; reflexivity.
    + assert (Hlt : (2 * rr ?= 2 * B) = Lt) by (apply Z.compare_lt_iff; lia).
      rewrite Hlt.
      destruct r, s; simpl in *; try discriminate; split; reflexivity.
  - destruct q as [q | q |].
    + (* odd *)
      assert (Hm2 : Z.pos q~1 mod 2 = 1) by (rewrite Pos2Z.inj_xI; rewrite Z.add_comm, Z.mul_comm, Z.mod_add by lia; reflexivity).
      assert (Hd2 : Z.pos q~1 / 2 = Z.pos q) by (rewrite Pos2Z.inj_xI; rewrite Z.add_comm, Z.mul_comm, Z.div_add by lia; reflexivity).
      rewrite Hm2, Hd2.
      destruct (Z.eqb_spec (rr + B * 1) 0) as [Hz | Hnz]; [lia |].
      destruct (Z.eqb_spec rr 0) as [-> | Hne].
      * assert (Hc : (2 * (0 + B * 1) ?= 2 * B) = Eq) by (apply Z.compare_eq_iff; lia).
        rewrite Hc. destruct r, s; simpl in *; try discriminate. split; reflexivity.
      * assert (Hc : (2 * (rr + B * 1) ?= 2 * B) = Gt) by (apply Z.compare_gt_iff; lia).
        rewrite Hc. destruct r, s; simpl in *; try discriminate; split; reflexivity.
    + assert (Hm2 : Z.pos q~0 mod 2 = 0) by (rewrite Pos2Z.inj_xO; rewrite Z.mul_comm, Z.mod_mul by lia; reflexivity).
      assert (Hd2 : Z.pos q~0 / 2 = Z.pos q) by (rewrite Pos2Z.inj_xO; rewrite Z.mul_comm, Z.div_mul by lia; reflexivity).
      rewrite Hm2, Hd2, Z.mul_0_r, Z.add_0_r.
      destruct (Z.eqb_spec rr 0) as [-> | Hne].
      * destruct r, s; simpl in *; try discriminate. split; reflexivity.
      * assert (Hlt : (2 * rr ?= 2 * B) = Lt) by (apply Z.compare_lt_iff; lia).
        rewrite Hlt.
        destruct r, s; simpl in *; try discriminate; split; reflexivity.
    + change (1 mod 2) with 1. change (1 / 2) with 0.
      destruct (Z.eqb_spec (rr + B * 1) 0) as [Hz | Hnz]; [lia |].
      destruct (Z.eqb_spec rr 0) as [-> | Hne].
      * assert (Hc : (2 * (0 + B * 1) ?= 2 * B) = Eq) by (apply Z.compare_eq_iff; lia).
        rewrite Hc. destruct r, s; simpl in *; try discriminate. split; reflexivity.
      * assert (Hc : (2 * (rr + B * 1) ?= 2 * B) = Gt) by (apply Z.compare_gt_iff; lia).
        rewrite Hc. destruct r, s; simpl in *; try discriminate; split; reflexivity.
Qed.

Lemma pow2_xO (n : positive) : 2 ^ Z.pos n~0 = 2 ^ Z.pos n * 2 ^ Z.pos n.
Proof.
  replace (Z.pos n~0) with (Z.pos n + Z.pos n) by lia.
  apply Z.pow_add_r; lia.
Qed.

Lemma pow2_xI (n : positive) : 2 ^ Z.pos n~1 = 2 * (2 ^ Z.pos n * 2 ^ Z.pos n).
Proof.
  replace (Z.pos n~1) with (Z.succ (Z.pos n + Z.pos n)) by lia.
  rewrite Z.pow_succ_r, Z.pow_add_r by lia. reflexivity.
Qed.

Lemma iter_shr_1_located (n : positive) :
  forall A B mrs,
    rec_located A B mrs ->
    rec_located A (B * 2 ^ Z.pos n) (SpecFloat.iter_pos shr_1 n mrs).
Proof.
  induction n as [n IH | n IH |]; intros A B mrs H; simpl SpecFloat.iter_pos.
  - apply shr_1_located in H. apply IH in H. apply IH in H.
    replace (B * 2 ^ Z.pos n~1) with (2 * B * 2 ^ Z.pos n * 2 ^ Z.pos n); [exact H |].
    rewrite pow2_xI. ring.
  - apply IH in H. apply IH in H.
    replace (B * 2 ^ Z.pos n~0) with (B * 2 ^ Z.pos n * 2 ^ Z.pos n); [exact H |].
    rewrite pow2_xO. ring.
  - apply shr_1_located in H. rewrite Z.pow_1_r, Z.mul_comm. exact H.
Qed.

(** Shifting right by [n >= 0] bits keeps the location and multiplies the
    denominator by [2^n]. *)
Lemma shr_located (A B e n : Z) (mrs : shr_record) :
  0 <= n -> rec_located A B mrs ->
  rec_located A (B * 2 ^ n) (fst (shr mrs e n)) /\ snd (shr mrs e n) = e + n.
Proof.
  intros Hn H. destruct n as [| n | n]; simpl; [| | lia].
  - rewrite Z.mul_1_r, Z.add_0_r. auto.
  - split; [| reflexivity].
    change (Z.pow_pos 2 n) with (2 ^ Z.pos n). apply iter_shr_1_located. exact H.
Qed.

Lemma rne_bounds (A B : Z) : 0 < B -> A / B <= rne A B <= A / B + 1.
Proof.
  intros HB. unfold rne.
  destruct (2 * (A mod B) ?= B); [destruct (Z.even (A / B)) | |]; lia.
Qed.

Lemma rne_le (A B K : Z) : 0 < B -> A <= K * B -> rne A B <= K.
Proof.
  intros HB HA. unfold rne.
  pose proof (Z.mod_pos_bound A B HB) as Hr.
  pose proof (Z.div_mod A B ltac:(lia)) as Hdm.
  assert (Hq : A / B <= K) by (apply Z.div_le_upper_bound; lia).
  destruct (Z.compare_spec (2 * (A mod B)) B) as [He | Hl | Hg].
  - assert (A / B < K) by nia. destruct (Z.even (A / B)); lia.
  - lia.
  - assert (A / B < K) by nia. lia.
Qed.

Lemma rne_exact (K B : Z) : 0 < B -> rne (K * B) B = K.
Proof.
  intros HB. unfold rne. rewrite Z.mod_mul, Z.div_mul by lia.
  assert (H : (2 * 0 ?= B) = Lt) by (apply Z.compare_lt_iff; lia).
  rewrite H. reflexivity.
Qed.

Lemma round_nearest_even_located (A B m : Z) (l : location) :
  located A B m l -> round_nearest_even m l = rne A B.
Proof.
  intros (HB & HA & -> & ->). unfold rne, loc_of.
  pose proof (Z.mod_pos_bound A B HB) as Hr.
  destruct (Z.eqb_spec (A mod B) 0) as [Hz | Hnz].
  - rewrite Hz. assert (H : (2 * 0 ?= B) = Lt) by (apply Z.compare_lt_iff; lia).
    rewrite H. reflexivity.
  - simpl. destruct (2 * (A mod B) ?= B); reflexivity.
Qed.

Lemma new_location_located (A B : Z) :
  0 < B -> 0 <= A ->
  located A B (A / B) (new_location B (A mod B)).
Proof.
  intros HB HA. split; [exact HB |]. split; [exact HA |]. split; [reflexivity |].
  pose proof (Z.mod_pos_bound A B HB) as Hr.
  unfold new_location, new_location_even, new_location_odd, loc_of.
  destruct (Z.even B) eqn:Hev; [reflexivity |].
  destruct (Z.eqb_spec (A mod B) 0); [reflexivity |]. f_equal.
  assert (Hodd : Z.odd B = true) by (rewrite <- Z.negb_even, Hev; reflexivity).
  apply Z.odd_spec in Hodd. destruct Hodd as [k Hk].
  destruct (Z.compare_spec (2 * (A mod B) + 1) B) as [He | Hl | Hg];
    symmetry; [apply Z.compare_lt_iff | apply Z.compare_lt_iff | apply Z.compare_gt_iff]; lia.
Qed.

Lemma fexp_normal (x : Z) : -1074 <= x - 53 -> fexp 53 1024 x = x - 53.
Proof. intros H. unfold fexp, emin. lia. Qed.

Lemma shift_keeps_53 (m n : Z) :
  0 <= n -> 2 ^ (n + 52) <= m < 2 ^ (n + 53) -> 2 ^ 52 <= m / 2 ^ n < 2 ^ 53.
Proof.
  intros Hn [Hlo Hhi].
  assert (Hp : 0 < 2 ^ n) by (apply Z.pow_pos_nonneg; lia).
  rewrite Z.pow_add_r in Hlo, Hhi by lia.
  split.
  - apply Z.div_le_lower_bound; lia.
  - apply Z.div_lt_upper_bound; lia.
Qed.

Lemma shr_exact_even (p : positive) (e : Z) :
  shr (shr_record_of_loc (Z.pos p~0) loc_Exact) e 1
  = ({| shr_m := Z.pos p; shr_r := false; shr_s := false |}, e + 1).
Proof. reflexivity. Qed.

Lemma binary_round_aux_normal (sx : bool) (A B m e : Z) (l : location) :
  located A B m l ->
  2 ^ 52 <= m ->
  -1074 <= Zdigits2 m + e - 53 ->
  Zdigits2 m + e <= 1023 ->
  exists mf ef,
    binary_round_aux 53 1024 sx m e l = S754_finite sx mf ef /\
    2 ^ 52 <= Z.pos mf < 2 ^ 53 /\
    ((Z.pos mf = rne A (B * 2 ^ (Zdigits2 m - 53)) /\
      ef = e + (Zdigits2 m - 53)) \/
     (rne A (B * 2 ^ (Zdigits2 m - 53)) = 2 ^ 53 /\
      Z.pos mf = 2 ^ 52 /\ ef = e + (Zdigits2 m - 53) + 1)).
Proof.
  intros Hloc Hm Hlo Hhi.
  assert (Hm0 : 0 < m) by (assert (0 < 2 ^ 52) by reflexivity; lia).
  destruct (Zdigits2_bounds m Hm0) as [Hd1 Hd2].
  set (d := Zdigits2 m) in *.
  assert (Hd : 53 <= d).
  { destruct (Z_lt_le_dec d 53) as [Hlt | Hge]; [| exact Hge].
    assert (2 ^ d <= 2 ^ 52) by (apply Z.pow_le_mono_r; lia). lia. }
  set (n := d - 53).
  assert (Hn : 0 <= n) by (unfold n; lia).
  unfold binary_round_aux, shr_fexp. fold d.
  rewrite (fexp_normal (d + e)) by lia.
  replace (d + e - 53 - e) with n by (unfold n; lia).
  assert (Hrec : rec_located A B (shr_record_of_loc m l)).
  { unfold rec_located. destruct (loc_of_record m l) as [-> ->]. exact Hloc. }
  destruct (shr_located A B e n _ Hn Hrec) as [Hloc1 He1].
  destruct (shr (shr_record_of_loc m l) e n) as [mrs1 e1]. simpl in Hloc1, He1.
  subst e1.
  assert (Hround : round_nearest_even (shr_m mrs1) (loc_of_shr_record mrs1)
                   = rne A (B * 2 ^ n))
    by (apply round_nearest_even_located; exact Hloc1).
  rewrite Hround.
  assert (HB1 : 0 < B * 2 ^ n).
  { destruct Hloc as (HB & _). apply Z.mul_pos_pos; [exact HB |].
    apply Z.pow_pos_nonneg; lia. }
  assert (Hm1 : 2 ^ 52 <= A / (B * 2 ^ n) < 2 ^ 53).
  { destruct Hloc as (HB & HA & Hmq & _).
    rewrite <- Z.div_div by (try apply Z.pow_pos_nonneg; lia).
    rewrite <- Hmq. apply shift_keeps_53; [exact Hn |].
    replace (n + 52) with (d - 1) by (unfold n; lia).
    replace (n + 53) with d by (unfold n; lia). lia. }
  pose proof (rne_bounds A (B * 2 ^ n) HB1) as Hr.
  set (m2 := rne A (B * 2 ^ n)) in *.
  destruct (Z_lt_le_dec m2 (2 ^ 53)) as [Hlt | Hge].
  - assert (Hd2' : Zdigits2 m2 = 53) by (apply Zdigits2_unique; simpl; lia).
    rewrite Hd2'. rewrite (fexp_normal (53 + (e + n))) by (unfold n; lia).
    replace (53 + (e + n) - 53 - (e + n)) with 0 by lia.
    simpl shr. simpl shr_m.
    destruct m2 as [| mf | mf]; [lia | | lia].
    exists mf, (e + n).
    replace (e + n <=? 1024 - 53) with true
      by (symmetry; apply Z.leb_le; unfold n; lia).
    split; [reflexivity |]. split; [lia |]. left. split; reflexivity.
  - assert (Heq : m2 = 2 ^ 53) by lia.
    rewrite Heq.
    replace (Zdigits2 (2 ^ 53)) with 54 by reflexivity.
    rewrite (fexp_normal (54 + (e + n))) by (unfold n; lia).
    replace (54 + (e + n) - 53 - (e + n)) with 1 by lia.
    exists 4503599627370496%positive, (e + n + 1).
    change (2 ^ 53) with (Z.pos 4503599627370496~0).
    rewrite shr_exact_even. cbv beta iota. simpl shr_m. cbv beta iota.
    replace (e + n + 1 <=? 1024 - 53) with true
      by (symmetry; apply Z.leb_le; unfold n; lia).
    split; [reflexivity |]. split; [split; [reflexivity | reflexivity] |].
    right. split; [reflexivity |]. split; reflexivity.
Qed.

Lemma located_exact (m : Z) : 0 <= m -> located m 1 m loc_Exact.
Proof.
  intros Hm. unfold located, loc_of. rewrite Z.div_1_r, Z.mod_1_r.
  split; [lia |]. split; [exact Hm |]. split; reflexivity.
Qed.

Lemma binary_round_aux_exact (sx : bool) (m : positive) (e : Z) :
  2 ^ 52 <= Z.pos m < 2 ^ 53 -> -1074 <= e <= 970 ->
  binary_round_aux 53 1024 sx (Z.pos m) e loc_Exact = S754_finite sx m e.
Proof.
  intros Hm He.
  assert (Hd : Zdigits2 (Z.pos m) = 53) by (apply Zdigits2_unique; simpl; lia).
  destruct (binary_round_aux_normal sx (Z.pos m) 1 (Z.pos m) e loc_Exact)
    as (mf & ef & Heq & Hmf & Hcase).
  - apply located_exact. lia.
  - lia.
  - rewrite Hd. lia.
  - rewrite Hd. lia.
  - rewrite Hd in Hcase. change (53 - 53) with 0 in Hcase.
    rewrite Z.pow_0_r, Z.mul_1_r in Hcase.
    assert (Hr : rne (Z.pos m) 1 = Z.pos m).
    { pose proof (rne_exact (Z.pos m) 1 ltac:(lia)) as Hx.
      rewrite Z.mul_1_r in Hx. exact Hx. }
    rewrite Hr in Hcase.
    destruct Hcase as [[Hv He'] | [Hv _]]; [| lia].
    rewrite Heq. f_equal; [lia | lia].
Qed.

Lemma pos_iter_xO (m k : positive) :
  Z.pos (Pos.iter xO m k) = Z.pos m * 2 ^ Z.pos k.
Proof.
  induction k as [| k IH] using Pos.peano_ind.
  - simpl. lia.
  - rewrite Pos.iter_succ, Pos2Z.inj_xO, IH, Pos2Z.inj_succ, Z.pow_succ_r by lia.
    ring.
Qed.

(** An integer in [1, 2^53) is a Number, exactly. *)
Lemma of_Z_exact (z : Z) :
  0 < z < 2 ^ 53 ->
  exists m e,
    Number.of_Z z = S754_finite false m e /\
    2 ^ 52 <= Z.pos m < 2 ^ 53 /\ -52 <= e <= 0 /\ Z.pos m = z * 2 ^ (- e).
Proof.
  intros [Hz0 Hz1]. destruct z as [| p | p]; [lia | | lia].
  destruct (Zdigits2_bounds (Z.pos p) Hz0) as [Hd1 Hd2]. simpl Zdigits2 in Hd1, Hd2.
  set (d := Z.pos (digits2_pos p)) in *.
  assert (Hd0 : 0 < d) by (unfold d; lia).
  assert (Hd53 : d <= 53).
  { destruct (Z_le_gt_dec d 53) as [Hle | Hgt]; [exact Hle |].
    assert (2 ^ 53 <= 2 ^ (d - 1)) by (apply Z.pow_le_mono_r; lia). lia. }
  unfold Number.of_Z, binary_normalize, binary_round. fold d.
  rewrite Z.add_0_r.
  change Number.prec with 53. change Number.emax with 1024.
  rewrite (fexp_normal d) by lia.
  unfold shl_align. rewrite Z.sub_0_r.
  assert (Hsplit : 2 ^ (d - 1) * 2 ^ (53 - d) = 2 ^ 52)
    by (rewrite <- Z.pow_add_r by lia; f_equal; lia).
  assert (Hsplit' : 2 ^ d * 2 ^ (53 - d) = 2 ^ 53)
    by (rewrite <- Z.pow_add_r by lia; f_equal; lia).
  assert (Hpp : 0 < 2 ^ (53 - d)) by (apply Z.pow_pos_nonneg; lia).
  destruct (d - 53) as [| k | k] eqn:Hk; [| lia |].
  - exists p, 0. replace (53 - d) with 0 in * by lia.
    rewrite binary_round_aux_exact by (simpl in *; lia).
    split; [reflexivity |]. simpl in *. lia.
  - exists (Pos.iter xO p k), (Z.neg k).
    assert (Hv : Z.pos (Pos.iter xO p k) = Z.pos p * 2 ^ (53 - d))
      by (rewrite pos_iter_xO; f_equal; f_equal; lia).
    assert (Hb : 2 ^ 52 <= Z.pos (Pos.iter xO p k) < 2 ^ 53).
    { rewrite Hv, <- Hsplit, <- Hsplit'. split.
      - apply Z.mul_le_mono_nonneg_r; lia.
      - apply Z.mul_lt_mono_pos_r; lia. }
    rewrite binary_round_aux_exact by lia.
    split; [reflexivity |]. split; [exact Hb |]. split; [lia |].
    rewrite Hv. f_equal. f_equal. lia.
Qed.

Lemma div_unfold (mx my : positive) (ex ey : Z) :
  Zdigits2 (Z.pos mx) = 53 -> Zdigits2 (Z.pos my) = 53 ->
  -1074 <= ex - ey - 53 ->
  Number.div (S754_finite false mx ex) (S754_finite false my ey)
  = binary_round_aux 53 1024 false
      (Z.pos mx * 2 ^ 53 / Z.pos my) (ex - ey - 53)
      (new_location (Z.pos my) ((Z.pos mx * 2 ^ 53) mod Z.pos my)).
Proof.
  intros Hdx Hdy He.
  unfold Number.div, SFdiv, SFdiv_core_binary.
  change Number.prec with 53. change Number.emax with 1024.
  rewrite Hdx, Hdy.
  rewrite (fexp_normal (53 + ex - (53 + ey))) by lia.
  replace (53 + ex - (53 + ey) - 53) with (ex - ey - 53) by lia.
  rewrite Z.min_l by lia.
  replace (ex - ey - (ex - ey - 53)) with 53 by lia.
  rewrite Z.shiftl_mul_pow2 by lia.
  unfold Z.div, Z.modulo.
  destruct (Z.div_eucl (Z.pos mx * 2 ^ 53) (Z.pos my)) as [q r].
  reflexivity.
Qed.

Lemma rne_error (A B : Z) :
  0 < B -> - B <= 2 * (rne A B * B - A) <= B.
Proof.
  intros HB. unfold rne.
  pose proof (Z.mod_pos_bound A B HB) as Hr.
  pose proof (Z.div_mod A B ltac:(lia)) as Hdm.
  destruct (Z.compare_spec (2 * (A mod B)) B) as [He | Hl | Hg];
    [destruct (Z.even (A / B)) | |]; nia.
Qed.

Lemma pow2_le_inv (a b : Z) : 0 <= a -> 2 ^ a <= 2 ^ b -> a <= b.
Proof.
  intros Ha Hab. destruct (Z_lt_le_dec b 0) as [Hb | Hb].
  - rewrite (Z.pow_neg_r 2 b Hb) in Hab.
    assert (0 < 2 ^ a) by (apply Z.pow_pos_nonneg; lia). lia.
  - apply (Z.pow_le_mono_r_iff 2); [lia | exact Hb | exact Hab].
Qed.

(** The quotient of two integers [0 < p <= n < 2^53] is a normal Number
    that does not exceed one and lies within half a unit in the last place
    of [p / n]. *)
Lemma div_le_one (p n : Z) :
  0 < p -> p <= n -> n < 2 ^ 53 ->
  exists m e,
    Number.div (Number.of_Z p) (Number.of_Z n) = S754_finite false m e /\
    2 ^ 52 <= Z.pos m < 2 ^ 53 /\ -106 <= e <= -52 /\ Z.pos m <= 2 ^ (- e) /\
    - n <= 2 * (Z.pos m * n - p * 2 ^ (- e)) <= n.
Proof.
  intros Hp Hpn Hn.
  destruct (of_Z_exact p ltac:(lia)) as (mp & ep & -> & Hmp & Hep & Hvp).
  destruct (of_Z_exact n ltac:(lia)) as (mn & en & -> & Hmn & Hen & Hvn).
  assert (Hdp : Zdigits2 (Z.pos mp) = 53) by (apply Zdigits2_unique; simpl; lia).
  assert (Hdn : Zdigits2 (Z.pos mn) = 53) by (apply Zdigits2_unique; simpl; lia).
  rewrite div_unfold by (assumption || lia).
  set (A := Z.pos mp * 2 ^ 53). set (B := Z.pos mn).
  assert (HB : 0 < B) by (unfold B; lia).
  assert (HA : 0 <= A) by (unfold A; lia).
  assert (Hq : 2 ^ 52 <= A / B < 2 ^ 54).
  { split.
    - apply Z.div_le_lower_bound; [exact HB |]. unfold A, B.
      change (2 ^ 53) with 9007199254740992 in *.
      change (2 ^ 52) with 4503599627370496 in *. nia.
    - apply Z.div_lt_upper_bound; [exact HB |]. unfold A, B.
      change (2 ^ 54) with 18014398509481984.
      change (2 ^ 53) with 9007199254740992 in *.
      change (2 ^ 52) with 4503599627370496 in *. nia. }
  assert (Hdq : 53 <= Zdigits2 (A / B) <= 54).
  { destruct (Zdigits2_bounds (A / B)) as [H1 H2].
    { assert (0 < 2 ^ 52) by reflexivity. lia. }
    split.
    - destruct (Z_lt_le_dec (Zdigits2 (A / B)) 53) as [Hlt | Hge]; [| exact Hge].
      assert (2 ^ Zdigits2 (A / B) <= 2 ^ 52) by (apply Z.pow_le_mono_r; lia). lia.
    - destruct (Z_le_gt_dec (Zdigits2 (A / B)) 54) as [Hle | Hgt]; [exact Hle |].
      assert (2 ^ 54 <= 2 ^ (Zdigits2 (A / B) - 1)) by (apply Z.pow_le_mono_r; lia).
      lia. }
  destruct (binary_round_aux_normal false A B (A / B) (ep - en - 53)
              (new_location B (A mod B)))
    as (mf & ef & Heq & Hmf & Hcase);
    [apply new_location_located; assumption | lia | lia | lia |].
  exists mf, ef. split; [exact Heq |]. split; [exact Hmf |].
  set (k := Zdigits2 (A / B) - 53) in *.
  assert (Hk : 0 <= k <= 1) by (unfold k; lia).
  set (e1 := ep - en - 53 + k) in *.
  assert (He1 : 0 <= - e1) by (unfold e1; lia).
  set (D := 2 ^ (53 - ep)).
  assert (HD : 0 < D) by (apply Z.pow_pos_nonneg; lia).
  assert (HAD : A = p * D).
  { unfold A, D. rewrite Hvp.
    replace (53 - ep) with (- ep + 53) by lia.
    rewrite Z.pow_add_r by lia. ring. }
  assert (HBD : 2 ^ (- e1) * (B * 2 ^ k) = n * D).
  { unfold B, D. rewrite Hvn.
    replace (53 - ep) with (- en + (- e1 + k)) by (unfold e1; lia).
    rewrite !Z.pow_add_r by lia. ring. }
  assert (HB1 : 0 < B * 2 ^ k)
    by (apply Z.mul_pos_pos; [exact HB | apply Z.pow_pos_nonneg; lia]).
  assert (HE1 : 0 < 2 ^ (- e1)) by (apply Z.pow_pos_nonneg; lia).
  assert (Hbound : rne A (B * 2 ^ k) <= 2 ^ (- e1)).
  { apply rne_le; [exact HB1 |]. rewrite HBD, HAD.
    apply Z.mul_le_mono_nonneg_r; lia. }
  pose proof (rne_error A (B * 2 ^ k) HB1) as Herr.
  set (m2 := rne A (B * 2 ^ k)) in *.
  set (E1 := 2 ^ (- e1)) in *. set (B1 := B * 2 ^ k) in *.
  assert (Herr' : - n <= 2 * (m2 * n - p * E1) <= n).
  { assert (H1 : D * (- n) <= D * (2 * (m2 * n - p * E1)) <= D * n).
    { replace (D * (2 * (m2 * n - p * E1)))
        with (E1 * (2 * (m2 * B1 - A)))
        by (rewrite HAD; replace (E1 * (2 * (m2 * B1 - p * D)))
              with (2 * (m2 * (E1 * B1) - p * D * E1)) by ring;
            rewrite HBD; ring).
      replace (D * n) with (E1 * B1) by (rewrite HBD; ring).
      replace (D * - n) with (E1 * - B1)
        by (replace (E1 * - B1) with (- (E1 * B1)) by ring; rewrite HBD; ring).
      split; apply Z.mul_le_mono_nonneg_l; lia. }
    destruct H1 as [Ha Hb].
    apply Z.mul_le_mono_pos_l in Ha; [| exact HD].
    apply Z.mul_le_mono_pos_l in Hb; [| exact HD]. lia. }
  destruct Hcase as [[Hv He] | (Hv & Hv' & He)].
  - assert (52 <= - e1) by (apply pow2_le_inv; unfold E1 in *; lia).
    subst ef. split; [unfold e1 in *; lia |]. rewrite Hv.
    split; [exact Hbound | exact Herr'].
  - assert (53 <= - e1) by (apply pow2_le_inv; unfold E1 in *; lia).
    subst ef. split; [unfold e1 in *; lia |]. rewrite Hv'.
    assert (HE2 : E1 = 2 * 2 ^ (- (e1 + 1))).
    { unfold E1. replace (- e1) with (Z.succ (- (e1 + 1))) by lia.
      rewrite Z.pow_succ_r by lia. reflexivity. }
    split; [apply Z.pow_le_mono_r; lia |].
    rewrite Hv in Herr'. change (2 ^ 53) with (2 * 2 ^ 52) in Herr'.
    rewrite HE2 in Herr'. lia.
Qed.

Lemma of_Z_100 : Number.of_Z 100 = S754_finite false 7036874417766400 (-46).
Proof. reflexivity. Qed.

(** A normal Number at most one, times 100, is a normal Number at most
    100, within half a unit in the last place of the exact product. *)
Lemma mul_100_le (m : positive) (e : Z) :
  2 ^ 52 <= Z.pos m < 2 ^ 53 -> -106 <= e <= -52 -> Z.pos m <= 2 ^ (- e) ->
  exists mg eg,
    Number.mul (S754_finite false m e) (Number.of_Z 100)
    = S754_finite false mg eg /\
    eg < 0 /\ Z.pos mg <= 100 * 2 ^ (- eg) /\
    2 ^ 52 <= Z.pos mg < 2 ^ 53 /\
    - 2 ^ (- e) <= 2 * (Z.pos mg * 2 ^ (- e) - 100 * Z.pos m * 2 ^ (- eg))
                <= 2 ^ (- e).
Proof.
  intros Hm He Hle. rewrite of_Z_100.
  unfold Number.mul, SFmul. change (xorb false false) with false.
  change Number.prec with 53. change Number.emax with 1024.
  rewrite Pos2Z.inj_mul.
  set (A := Z.pos m * Z.pos 7036874417766400).
  assert (HA : 2 ^ 104 <= A < 2 ^ 106).
  { unfold A.
    change (2 ^ 104) with 20282409603651670423947251286016.
    change (2 ^ 106) with 81129638414606681695789005144064.
    change (2 ^ 53) with 9007199254740992 in *.
    change (2 ^ 52) with 4503599627370496 in *. clear - Hm. lia. }
  assert (Hd : 105 <= Zdigits2 A <= 106).
  { destruct (Zdigits2_bounds A) as [H1 H2].
    { assert (0 < 2 ^ 104) by reflexivity. lia. }
    split.
    - destruct (Z_lt_le_dec (Zdigits2 A) 105) as [Hlt | Hge]; [| exact Hge].
      assert (2 ^ Zdigits2 A <= 2 ^ 104) by (apply Z.pow_le_mono_r; lia). lia.
    - destruct (Z_le_gt_dec (Zdigits2 A) 106) as [Hl | Hgt]; [exact Hl |].
      assert (2 ^ 106 <= 2 ^ (Zdigits2 A - 1)) by (apply Z.pow_le_mono_r; lia).
      lia. }
  assert (H52 : 2 ^ 52 <= A) by (assert (2 ^ 52 <= 2 ^ 104) by (apply Z.pow_le_mono_r; lia); lia).
  destruct (binary_round_aux_normal false A 1 A (e + -46) loc_Exact)
    as (mg & eg & Heq & Hmg & Hcase);
    [apply located_exact; lia | exact H52 | lia | lia |].
  exists mg, eg. split; [exact Heq |].
  set (k := Zdigits2 A - 53) in *.
  assert (Hk : 52 <= k <= 53) by (unfold k; lia).
  set (e1 := e + -46 + k) in *.
  assert (He1 : - 100 <= e1 <= -45) by (unfold e1; lia).
  assert (HK : 0 < 2 ^ k) by (apply Z.pow_pos_nonneg; lia).
  assert (HEg : 2 ^ (- e1) * 2 ^ k = 2 ^ (- e) * 2 ^ 46).
  { rewrite <- !Z.pow_add_r by lia. f_equal. unfold e1. lia. }
  assert (Hbound : rne A (1 * 2 ^ k) <= 100 * 2 ^ (- e1)).
  { apply rne_le; [lia |].
    replace (100 * 2 ^ (- e1) * (1 * 2 ^ k)) with (100 * (2 ^ (- e1) * 2 ^ k)) by ring.
    rewrite HEg. unfold A. change (Z.pos 7036874417766400) with (100 * 2 ^ 46).
    assert (0 < 2 ^ 46) by reflexivity. nia. }
  pose proof (rne_error A (1 * 2 ^ k) ltac:(lia)) as Herr.
  set (m2 := rne A (1 * 2 ^ k)) in *.
  set (E := 2 ^ (- e)) in *. set (Eg1 := 2 ^ (- e1)) in *.
  assert (HE : 0 < E) by (apply Z.pow_pos_nonneg; lia).
  assert (HEg1 : 0 < Eg1) by (apply Z.pow_pos_nonneg; lia).
  assert (Herr' : - E <= 2 * (m2 * E - 100 * Z.pos m * Eg1) <= E).
  { assert (H46 : 0 < 2 ^ 46) by reflexivity.
    assert (H1 : 2 ^ 46 * (- E) <= 2 ^ 46 * (2 * (m2 * E - 100 * Z.pos m * Eg1))
                 <= 2 ^ 46 * E).
    { replace (2 ^ 46 * (2 * (m2 * E - 100 * Z.pos m * Eg1)))
        with (Eg1 * (2 * (m2 * (1 * 2 ^ k) - A)))
        by (unfold A; change (Z.pos 7036874417766400) with (100 * 2 ^ 46);
            replace (Eg1 * (2 * (m2 * (1 * 2 ^ k) - Z.pos m * (100 * 2 ^ 46))))
              with (2 * (m2 * (Eg1 * 2 ^ k) - 100 * Z.pos m * Eg1 * 2 ^ 46)) by ring;
            rewrite HEg; ring).
      replace (2 ^ 46 * E) with (Eg1 * (1 * 2 ^ k)) by (rewrite Z.mul_1_l, HEg; ring).
      replace (2 ^ 46 * - E) with (Eg1 * - (1 * 2 ^ k))
        by (replace (Eg1 * - (1 * 2 ^ k)) with (- (Eg1 * 2 ^ k)) by ring;
            rewrite HEg; ring).
      split; apply Z.mul_le_mono_nonneg_l; lia. }
    destruct H1 as [Ha Hb].
    apply Z.mul_le_mono_pos_l in Ha; [| exact H46].
    apply Z.mul_le_mono_pos_l in Hb; [| exact H46]. lia. }
  destruct Hcase as [[Hv Hee] | (Hv & Hv' & Hee)].
  - subst eg. split; [lia |]. rewrite Hv.
    split; [exact Hbound |]. split; [rewrite <- Hv; exact Hmg | exact Herr'].
  - subst eg. split; [lia |]. rewrite Hv'.
    assert (HE2 : Eg1 = 2 * 2 ^ (- (e1 + 1))).
    { unfold Eg1. replace (- e1) with (Z.succ (- (e1 + 1))) by lia.
      rewrite Z.pow_succ_r by lia. reflexivity. }
    rewrite Hv in Hbound, Herr'. change (2 ^ 53) with (2 * 2 ^ 52) in Hbound, Herr'.
    rewrite HE2 in Hbound, Herr'.
    split; [lia |]. split; [split; [lia | reflexivity] |]. lia.
Qed.

(** [Math.round] of a positive Number with a negative exponent. *)
Lemma Math_round_pos (m : positive) (e : Z) :
  e < 0 ->
  Number.Math_round (S754_finite false m e)
  = Number.of_Z ((2 * Z.pos m + 2 ^ (- e)) / (2 * 2 ^ (- e))).
Proof.
  intros He. unfold Number.Math_round.
  replace (0 <=? e) with false by (symmetry; apply Z.leb_gt; exact He).
  replace (1 - e) with (Z.succ (- e)) by lia. rewrite Z.pow_succ_r by lia.
  reflexivity.
Qed.

(** [Math.round] of a non-negative Number at most 100 is an integer of
    [0 .. 100]. *)
Lemma Math_round_le_100 (m : positive) (e : Z) :
  e < 0 -> Z.pos m <= 100 * 2 ^ (- e) ->
  exists z, Number.Math_round (S754_finite false m e) = Number.of_Z z /\
            0 <= z <= 100.
Proof.
  intros He Hle. rewrite (Math_round_pos m e He).
  eexists. split; [reflexivity |].
  assert (Hp : 0 < 2 ^ (- e)) by (apply Z.pow_pos_nonneg; lia).
  split.
  - apply Z.div_pos; lia.
  - assert ((2 * Z.pos m + 2 ^ (- e)) / (2 * 2 ^ (- e)) < 101); [| lia].
    apply Z.div_lt_upper_bound; lia.
Qed.

(** The double computation against the exact quotient: for
    [0 < p <= n < 2^32] the rounded rate is the round-half-up of
    [100 * p / n], or one less when [100 * p / n] is exactly halfway between
    two integers. *)
Lemma rate_vs_exact (p n : Z) :
  0 < p -> p <= n -> n < 2 ^ 32 ->
  exists z,
    Number.Math_round
      (Number.mul (Number.div (Number.of_Z p) (Number.of_Z n)) (Number.of_Z 100))
    = Number.of_Z z /\
    (2 * (p * 100) + n) / (2 * n) - 1 <= z <= (2 * (p * 100) + n) / (2 * n) /\
    ((2 * (p * 100) + n) mod (2 * n) <> 0 ->
     z = (2 * (p * 100) + n) / (2 * n)).
Proof.
  intros Hp Hpn Hn.
  assert (H3253 : 2 ^ 32 < 2 ^ 53) by reflexivity.
  destruct (div_le_one p n Hp Hpn ltac:(lia))
    as (mq & eq & Hq & Hmq & Heq & Hle1 & Hd1).
  destruct (mul_100_le mq eq Hmq Heq Hle1)
    as (mg & eg & Hg & Heg & Hle100 & Hmg & Hd2).
  rewrite Hq, Hg, (Math_round_pos mg eg Heg).
  eexists. split; [reflexivity |].
  set (E := 2 ^ (- eq)) in *. set (Eg := 2 ^ (- eg)) in *.
  assert (HE : 2 ^ 52 <= E) by (apply Z.pow_le_mono_r; lia).
  assert (HEg : 0 < Eg) by (apply Z.pow_pos_nonneg; lia).
  change (2 ^ 52) with 4503599627370496 in *.
  change (2 ^ 53) with 9007199254740992 in *.
  change (2 ^ 32) with 4294967296 in *.
  assert (HEg45 : 35184372088832 <= Eg) by lia.
  set (X := Z.pos mg * n - 100 * p * Eg).
  (* 2 |X| < Eg *)
  assert (HX : - Eg < 2 * X < Eg).
  { assert (HE0 : 0 < E) by lia.
    assert (HXE : 2 * X * E
                  = n * (2 * (Z.pos mg * E - 100 * Z.pos mq * Eg))
                    + 100 * Eg * (2 * (Z.pos mq * n - p * E)))
      by (unfold X; ring).
    assert (Hb1 : n * (- E)
                  <= n * (2 * (Z.pos mg * E - 100 * Z.pos mq * Eg))
                  <= n * E)
      by (split; apply Z.mul_le_mono_nonneg_l; lia).
    assert (Hb2 : 100 * Eg * (- n)
                  <= 100 * Eg * (2 * (Z.pos mq * n - p * E))
                  <= 100 * Eg * n)
      by (split; apply Z.mul_le_mono_nonneg_l; lia).
    assert (Hs1 : 2 * n * E <= Eg * E)
      by (apply Z.mul_le_mono_nonneg_r; lia).
    assert (Hs2 : 200 * n * Eg < E * Eg)
      by (apply Z.mul_lt_mono_pos_r; lia).
    assert (HXb : (- Eg) * E < 2 * X * E < Eg * E) by lia.
    destruct HXb as [Ha Hb].
    apply Z.mul_lt_mono_pos_r in Ha; [| exact HE0].
    apply Z.mul_lt_mono_pos_r in Hb; [| exact HE0].
    split; assumption. }
  set (N := 2 * (p * 100) + n) in *.
  pose proof (Z.div_mod N (2 * n) ltac:(lia)) as HR.
  pose proof (Z.mod_pos_bound N (2 * n) ltac:(lia)) as HRr.
  set (R := N / (2 * n)) in *. set (rr := N mod (2 * n)) in *.
  pose proof (Z.div_mod (2 * Z.pos mg + Eg) (2 * Eg) ltac:(lia)) as HZ.
  pose proof (Z.mod_pos_bound (2 * Z.pos mg + Eg) (2 * Eg) ltac:(lia)) as HZr.
  set (z := (2 * Z.pos mg + Eg) / (2 * Eg)) in *.
  set (zr := (2 * Z.pos mg + Eg) mod (2 * Eg)) in *.
  unfold N in HR. unfold X in HX.
  assert (HnEg : 0 < n * Eg) by (apply Z.mul_pos_pos; lia).
  assert (F1 : n * (2 * Z.pos mg + Eg) = n * (2 * Eg * z + zr))
    by (f_equal; exact HZ).
  assert (F2 : Eg * (2 * (p * 100) + n) = Eg * (2 * n * R + rr))
    by (f_equal; exact HR).
  assert (F3 : 0 <= n * zr < n * (2 * Eg))
    by (split; [apply Z.mul_nonneg_nonneg; lia
               | apply Z.mul_lt_mono_pos_l; lia]).
  assert (F4 : 0 <= Eg * rr <= Eg * (2 * n - 1))
    by (split; [apply Z.mul_nonneg_nonneg; lia
               | apply Z.mul_le_mono_nonneg_l; lia]).
  assert (F5 : Eg * 1 <= Eg * n) by (apply Z.mul_le_mono_nonneg_l; lia).
  assert (Hlo : R - 1 <= z).
  { destruct (Z_le_gt_dec (R - 1) z) as [Hok | Hbad]; [exact Hok | exfalso].
    assert (F6 : n * Eg * z <= n * Eg * (R - 2))
      by (apply Z.mul_le_mono_nonneg_l; lia).
    lia. }
  assert (Hhi : z <= R).
  { destruct (Z_le_gt_dec z R) as [Hok | Hbad]; [exact Hok | exfalso].
    assert (F6 : n * Eg * (R + 1) <= n * Eg * z)
      by (apply Z.mul_le_mono_nonneg_l; lia).
    lia. }
  split; [split; assumption |].
  intros Hrr.
  destruct (Z.eq_dec z R) as [Hok | Hbad]; [exact Hok | exfalso].
  assert (Hz : z = R - 1) by lia.
  assert (F6 : n * Eg * z = n * Eg * (R - 1)) by (rewrite Hz; reflexivity).
  assert (F7 : Eg * 1 <= Eg * rr) by (apply Z.mul_le_mono_nonneg_l; lia).
  lia.
Qed.

End NumberFacts.

(** ** Aggregation *)

Section Aggregation.

Lemma status_is_spec (s : string) (c : CheckRecord) :
  status_is s c = true <-> status c = Some s.
Proof.
  unfold status_is. destruct (status c) as [t |]; [| split; discriminate].
  rewrite String.eqb_eq. split; congruence.
Qed.

(** [filter(...).length] is the count of the specification. *)
Lemma filter_length_count (s : string) (cs : list CheckRecord) :
  length (List.filter (status_is s) cs) = Spec.count_status s cs.
Proof.
  induction cs as [| c cs IH]; [reflexivity |]. simpl.
  destruct (status_is s c) eqn:Hs.
  - apply status_is_spec in Hs. destruct (decide (status c = Some s));
      [simpl; rewrite IH; reflexivity | contradiction].
  - destruct (decide (status c = Some s)) as [He | _]; [| exact IH].
    apply status_is_spec in He. congruence.
Qed.

Lemma passing_le_length (cs : list CheckRecord) :
  (passing cs <= length cs)%nat.
Proof. unfold passing. apply List.filter_length_le. Qed.

(** One check adds at most one to the three counts together, and exactly
    one when its status is recognized. *)
Lemma one_check_counts (c : CheckRecord) :
  ((if status_is "pass" c then 1 else 0)
   + (if status_is "warn" c then 1 else 0)
   + (if status_is "fail" c then 1 else 0) <= 1)%nat /\
  (((if status_is "pass" c then 1 else 0)
    + (if status_is "warn" c then 1 else 0)
    + (if status_is "fail" c then 1 else 0) = 1)%nat <-> Spec.recognized c).
Proof.
  unfold Spec.recognized, status_is.
  destruct (status c) as [t |].
  - destruct (String.eqb_spec t "pass") as [-> | Hp]; simpl.
    { split; [lia | split; auto]. }
    destruct (String.eqb_spec t "warn") as [-> | Hw]; simpl.
    { split; [lia | split; auto]. }
    destruct (String.eqb_spec t "fail") as [-> | Hf]; simpl.
    { split; [lia | split; auto]. }
    split; [lia |]. split; [lia |].
    intros [H | [H | H]]; congruence.
  - simpl. split; [lia |]. split; [lia |].
    intros [H | [H | H]]; discriminate.
Qed.

Lemma counts_cons (c : CheckRecord) (cs : list CheckRecord) :
  (passing (c :: cs) + warn (c :: cs) + fail (c :: cs)
   = (if status_is "pass" c then 1 else 0)
     + (if status_is "warn" c then 1 else 0)
     + (if status_is "fail" c then 1 else 0)
     + (passing cs + warn cs + fail cs))%nat.
Proof.
  unfold passing, warn, fail. simpl.
  destruct (status_is "pass" c), (status_is "warn" c), (status_is "fail" c);
    simpl; lia.
Qed.

(** C6.  The three counts together never exceed the number of checks, and
    they add up to it exactly when every check has one of the statuses
    ["pass"], ["warn"], ["fail"]. *)
Theorem counts_bounded_by_length (cs : list CheckRecord) :
  (passing cs + warn cs + fail cs <= length cs)%nat /\
  ((passing cs + warn cs + fail cs = length cs)%nat
   <-> Forall Spec.recognized cs).
Proof.
  induction cs as [| c cs [IHle IHeq]].
  - split; [vm_compute; lia |]. split; [constructor | reflexivity].
  - rewrite counts_cons. destruct (one_check_counts c) as [H1 Hrec].
    simpl length. split; [lia |]. split.
    + intros Hsum. constructor.
      * apply Hrec. lia.
      * apply IHeq. lia.
    + intros Hall. inversion Hall as [| ? ? Hc Hcs]; subst.
      apply Hrec in Hc. apply IHeq in Hcs. lia.
Qed.

Lemma of_nat_zero : Number.of_nat 0 = S754_zero false.
Proof. reflexivity. Qed.

(** With no passing check the rate is [Math.round(0 / n * 100) = 0]. *)
Lemma checkRate_none_passing (cs : list CheckRecord) :
  array_length_ok cs -> passing cs = 0%nat -> checkRate cs = Number.of_Z 0.
Proof.
  intros Hlen Hp. unfold checkRate.
  destruct (Nat.eqb (length cs) 0) eqn:Hz; [reflexivity |].
  apply Nat.eqb_neq in Hz.
  destruct (of_Z_exact (Z.of_nat (length cs))) as (m & e & Hn & _).
  { unfold array_length_ok in Hlen. split; [lia |].
    assert (2 ^ 32 < 2 ^ 53) by reflexivity. lia. }
  rewrite Hp, of_nat_zero. unfold Number.of_nat. rewrite Hn, of_Z_100.
  reflexivity.
Qed.

(** The rate is an integer between 0 and 100. *)
Lemma checkRate_range (cs : list CheckRecord) :
  array_length_ok cs ->
  exists z, checkRate cs = Number.of_Z z /\ 0 <= z <= 100.
Proof.
  intros Hlen.
  destruct (Nat.eq_dec (passing cs) 0%nat) as [Hp | Hp].
  { exists 0. split; [apply checkRate_none_passing; assumption | lia]. }
  unfold checkRate.
  destruct (Nat.eqb (length cs) 0) eqn:Hz; [exists 0; split; [reflexivity | lia] |].
  pose proof (passing_le_length cs) as Hle.
  assert (H53 : 2 ^ 32 < 2 ^ 53) by reflexivity.
  unfold array_length_ok in Hlen.
  destruct (div_le_one (Z.of_nat (passing cs)) (Z.of_nat (length cs)))
    as (mq & eq & Hq & Hmq & Heq & Hle1 & _); [lia | lia | lia |].
  destruct (mul_100_le mq eq Hmq Heq Hle1)
    as (mg & eg & Hg & Heg & Hle100 & _).
  unfold Number.of_nat. rewrite Hq, Hg.
  apply Math_round_le_100; assumption.
Qed.

(** C3 as stated fails: with 23 of 40 checks passing, the quotient
    [23 / 40] is the double nearest to 0.575, its product by 100 is the
    double just below 57.5, and [Math.round] gives 57; the exact value 57.5
    rounds to 58 under either rounding the specification allows. *)
Lemma checkRate_23_of_40 :
  passing Sample.forty_checks = 23%nat /\
  length Sample.forty_checks = 40%nat /\
  checkRate Sample.forty_checks = Number.of_Z 57 /\
  Spec.checkRate Spec.round_half_up Sample.forty_checks = 58 /\
  Spec.checkRate Spec.round_half_even Sample.forty_checks = 58 /\
  Number.of_Z 57 <> Number.of_Z 58.
Proof.
  repeat split; try (vm_compute; reflexivity).
  vm_compute. discriminate.
Qed.

(** The rate against the exact quotient: it is the round-half-up of
    [100 * passing / length], or one less when that value is exactly halfway
    between two integers. *)
Lemma checkRate_vs_exact (cs : list CheckRecord) :
  array_length_ok cs ->
  exists z,
    checkRate cs = Number.of_Z z /\
    Spec.checkRate Spec.round_half_up cs - 1 <= z
      <= Spec.checkRate Spec.round_half_up cs /\
    (~ Spec.halfway cs -> z = Spec.checkRate Spec.round_half_up cs).
Proof.
  intros Hlen. destruct cs as [| c cs'].
  { exists 0. split; [reflexivity |]. simpl. split; [lia | reflexivity]. }
  set (cs := c :: cs') in *.
  assert (Hn : 0 < Z.of_nat (length cs)) by (simpl; lia).
  unfold Spec.halfway, Spec.checkRate, Spec.round_half_up. fold cs.
  change (match cs with [] => 0 | _ :: _ => ?x end) with x.
  rewrite <- (filter_length_count "pass" cs). fold (passing cs).
  destruct (Nat.eq_dec (passing cs) 0%nat) as [Hp | Hp].
  - exists 0. split; [apply checkRate_none_passing; assumption |].
    rewrite Hp. simpl Z.of_nat. rewrite Z.mul_0_l, Z.mul_0_r, Z.add_0_l.
    rewrite Z.div_small by lia. split; [lia | reflexivity].
  - pose proof (passing_le_length cs) as Hle.
    unfold array_length_ok in Hlen.
    destruct (rate_vs_exact (Z.of_nat (passing cs)) (Z.of_nat (length cs)))
      as (z & Hz & Hb & Ht); [lia | lia | exact Hlen |].
    exists z. split; [| split; assumption].
    unfold checkRate. simpl Nat.eqb. cbv iota. exact Hz.
Qed.

(** C3, as the program has it.  [passing], [warn] and [fail] are the numbers
    of checks whose status is ["pass"], ["warn"], ["fail"].  [checkRate] is
    0 for the empty list; otherwise it is [Math.round] (nearest integer,
    the upper one on a tie) applied to the product, rounded to a double, of
    100 and the quotient [passing / length], itself rounded to a double.
    For a list a JavaScript array can hold, that is the round-half-up of the
    exact value of [passing / length * 100], except that it may be one less
    when the exact value is halfway between two integers.  For the statuses
    pass, pass, warn, fail the results are 2, 1, 1 and 50. *)
Theorem checkRate_is_double_rounding (cs : list CheckRecord) :
  passing cs = Spec.count_status "pass" cs /\
  warn cs = Spec.count_status "warn" cs /\
  fail cs = Spec.count_status "fail" cs /\
  (cs = [] -> checkRate cs = Number.of_Z 0) /\
  (cs <> [] ->
   checkRate cs
   = Number.Math_round
       (Number.mul
          (Number.div (Number.of_nat (Spec.count_status "pass" cs))
                      (Number.of_nat (length cs)))
          (Number.of_Z 100))) /\
  (array_length_ok cs ->
   exists z,
     checkRate cs = Number.of_Z z /\
     Spec.checkRate Spec.round_half_up cs - 1 <= z
       <= Spec.checkRate Spec.round_half_up cs /\
     (~ Spec.halfway cs -> z = Spec.checkRate Spec.round_half_up cs)) /\
  passing Sample.four_checks = 2%nat /\
  warn Sample.four_checks = 1%nat /\
  fail Sample.four_checks = 1%nat /\
  checkRate Sample.four_checks = Number.of_Z 50.
Proof.
  split; [apply filter_length_count |].
  split; [apply filter_length_count |].
  split; [apply filter_length_count |].
  split; [intros ->; reflexivity |].
  split.
  { intros Hne. unfold checkRate.
    destruct cs as [| c cs']; [contradiction |].
    simpl Nat.eqb. cbv iota. unfold passing.
    rewrite filter_length_count. reflexivity. }
  split; [apply checkRate_vs_exact |].
  repeat split; vm_compute; reflexivity.
Qed.

Lemma checkRate_is_double_rounding_witness :
  exists z,
    checkRate Sample.forty_checks = Number.of_Z z /\
    Spec.checkRate Spec.round_half_up Sample.forty_checks - 1 <= z
      <= Spec.checkRate Spec.round_half_up Sample.forty_checks /\
    (~ Spec.halfway Sample.forty_checks ->
     z = Spec.checkRate Spec.round_half_up Sample.forty_checks).
Proof.
  destruct (checkRate_is_double_rounding Sample.forty_checks)
    as (_ & _ & _ & _ & _ & H & _).
  apply H. unfold array_length_ok. simpl. lia.
Defined.

(** C4 as stated fails: a single failed check gives a rate of 0 although
    the list is not empty. *)
Lemma checkRate_zero_nonempty :
  checkRate [Sample.check "fail"] = Number.of_Z 0 /\
  [Sample.check "fail"] <> [].
Proof. split; [vm_compute; reflexivity | discriminate]. Qed.

(** C4, as the program has it.  For a list a JavaScript array can hold,
    [checkRate] is an integer of the interval [0, 100]; it is 0 when the
    list is empty, and also whenever no check passes. *)
Theorem checkRate_in_range (cs : list CheckRecord) :
  array_length_ok cs ->
  (exists z, checkRate cs = Number.of_Z z /\ 0 <= z <= 100) /\
  (cs = [] -> checkRate cs = Number.of_Z 0) /\
  (passing cs = 0%nat -> checkRate cs = Number.of_Z 0).
Proof.
  intros Hlen. split; [apply checkRate_range; exact Hlen |].
  split; [intros ->; reflexivity |].
  apply checkRate_none_passing. exact Hlen.
Qed.

Lemma checkRate_in_range_witness :
  (exists z, checkRate Sample.four_checks = Number.of_Z z /\ 0 <= z <= 100) /\
  (Sample.four_checks = [] -> checkRate Sample.four_checks = Number.of_Z 0) /\
  (passing Sample.four_checks = 0%nat ->
   checkRate Sample.four_checks = Number.of_Z 0).
Proof.
  apply (checkRate_in_range Sample.four_checks).
  unfold array_length_ok. simpl. lia.
Defined.

End Aggregation.

(** ** The preview effect and its invariant *)

Section PreviewInvariant.

Import App Inv.

Lemma preview_inv_init : preview_inv init.
Proof.
  split; simpl; intros i r H; rewrite lookup_empty in H; discriminate.
Qed.

Lemma preview_inv_refresh (w : World) :
  preview_inv w -> preview_inv (refresh w).
Proof.
  intros [Hf Hi Hl Hc]. split; simpl.
  - intros i r H. apply Hf in H. lia.
  - exact Hi.
  - exact Hl.
  - exact Hc.
Qed.

(** After the cleanup has run, every run in flight is cancelled. *)
Lemma run_cleanup_cancels (w : World) :
  (forall i r, previews w !! i = Some r -> cancelled r = false ->
               cleanup w = Some i) ->
  forall i r, previews (run_cleanup w) !! i = Some r -> cancelled r = true.
Proof.
  intros Hl i r. unfold run_cleanup.
  destruct (cleanup w) as [c |] eqn:Hc; simpl.
  - rewrite lookup_alter_Some. intros [(-> & x & Hx & ->) | (Hne & Hr)].
    + reflexivity.
    + destruct (cancelled r) eqn:Hcr; [reflexivity |].
      pose proof (Hl i r Hr Hcr). congruence.
  - intros Hr. destruct (cancelled r) eqn:Hcr; [reflexivity |].
    pose proof (Hl i r Hr Hcr). congruence.
Qed.

Lemma run_cleanup_frame (w : World) :
  ui (run_cleanup w) = ui w /\ refreshes (run_cleanup w) = refreshes w /\
  next_id (run_cleanup w) = next_id w /\
  generation (run_cleanup w) = generation w /\
  cleanup (run_cleanup w) = None.
Proof.
  unfold run_cleanup. destruct (cleanup w) eqn:Hc; simpl; auto.
Qed.

Lemma run_cleanup_lookup (w : World) (i : nat) (r : PreviewRun) :
  previews (run_cleanup w) !! i = Some r ->
  exists r0, previews w !! i = Some r0 /\
             run_file r = run_file r0 /\ issued r = issued r0.
Proof.
  unfold run_cleanup. destruct (cleanup w) as [c |]; simpl.
  - rewrite lookup_alter_Some. intros [(-> & x & Hx & ->) | (Hne & Hr)].
    + exists x. auto.
    + exists r. auto.
  - intros Hr. exists r. auto.
Qed.

Lemma preview_inv_select (f : string) (w : World) :
  preview_inv w -> preview_inv (select f w).
Proof.
  intros Hinv. unfold select.
  destruct (String.eqb f (selectedFile (ui w))); [exact Hinv |].
  set (w0 := mkWorld (setSelectedFile f (ui w)) (refreshes w) (previews w)
                     (cleanup w) (next_id w) (S (generation w))).
  assert (Hall : forall i r,
             previews (run_cleanup w0) !! i = Some r -> cancelled r = true).
  { apply run_cleanup_cancels. intros i r H Hc.
    exact (proj1 (pv_live w Hinv i r H Hc)). }
  destruct (run_cleanup_frame w0) as (Hui & Hrf & Hnx & Hgen & Hcl).
  assert (Hfresh : forall i r,
             previews (run_cleanup w0) !! i = Some r -> (i < next_id w)%nat).
  { intros i r H. apply run_cleanup_lookup in H.
    destruct H as (r0 & H0 & _). exact (pv_fresh w Hinv i r0 H0). }
  assert (Hlt : forall i r,
             previews (run_cleanup w0) !! i = Some r ->
             (issued r < S (generation w))%nat).
  { intros i r H. apply run_cleanup_lookup in H.
    destruct H as (r0 & H0 & _ & ->).
    pose proof (pv_issued w Hinv i r0 H0). lia. }
  unfold preview_effect. rewrite Hui, Hrf, Hnx, Hgen.
  change (selectedFile (ui w0)) with f. change (next_id w0) with (next_id w).
  change (generation w0) with (S (generation w)).
  destruct (truthy f); split; simpl.
  - intros i r. rewrite lookup_insert_Some.
    intros [(<- & _) | (_ & H)]; [lia |]. apply Hfresh in H. lia.
  - intros i r. rewrite lookup_insert_Some.
    intros [(_ & <-) | (_ & H)]; [simpl; lia |].
    pose proof (Hlt i r H). lia.
  - intros i r. rewrite lookup_insert_Some.
    intros [(<- & <-) | (_ & H)] Hc; [simpl; auto |].
    rewrite (Hall i r H) in Hc. discriminate.
  - intros i r. rewrite lookup_insert_Some.
    intros [(_ & <-) | (_ & H)] Hc; [discriminate |]. exact (Hlt i r H).
  - exact Hfresh.
  - intros i r H. pose proof (Hlt i r H). lia.
  - intros i r H Hc. rewrite (Hall i r H) in Hc. discriminate.
  - intros i r H _. exact (Hlt i r H).
Qed.

(** Writing cells other than [selectedFile] and [previewLoading]. *)
Lemma preview_inv_with_ui (f : State -> State) (w : World) :
  (forall s, selectedFile (f s) = selectedFile s) ->
  (forall s, previewLoading (f s) = previewLoading s) ->
  preview_inv w -> preview_inv (with_ui f w).
Proof.
  intros Hs Hp [Hf Hi Hl Hc]. split; simpl; [exact Hf | exact Hi | | exact Hc].
  rewrite Hs, Hp. exact Hl.
Qed.

Lemma preview_inv_drop_refresh (i : nat) (w : World) :
  preview_inv w -> preview_inv (drop_refresh i w).
Proof. intros [Hf Hi Hl Hc]. split; simpl; assumption. Qed.

Lemma preview_inv_refresh_resolved (c : string) (d : SummaryPayload)
    (w : World) :
  preview_inv w -> preview_inv (refresh_resolved c d w).
Proof.
  intros H. unfold refresh_resolved.
  apply preview_inv_with_ui; [reflexivity | reflexivity |].
  assert (H1 : preview_inv (with_ui (setPayload (Some d)) w))
    by (apply preview_inv_with_ui; [reflexivity | reflexivity | exact H]).
  destruct (files d) as [[| first rest] |]; try exact H1.
  destruct (negb (truthy c)); [apply preview_inv_select |]; exact H1.
Qed.

Lemma preview_inv_refresh_rejected (err : JsError) (w : World) :
  preview_inv w -> preview_inv (refresh_rejected err w).
Proof.
  intros H. unfold refresh_rejected.
  do 2 (apply preview_inv_with_ui; [reflexivity | reflexivity |]). exact H.
Qed.

(** A run that settles leaves the others as they were; when it was not
    cancelled it was the only such run, so clearing [previewLoading] is
    sound. *)
Lemma preview_inv_settled (i : nat) (pr : PreviewRun)
    (p : option PreviewPayload) (w : World) :
  preview_inv w -> previews w !! i = Some pr ->
  preview_inv
    (if cancelled pr then drop_preview i w
     else with_ui (setPreviewLoading false)
                  (with_ui (setPreview p) (drop_preview i w))).
Proof.
  intros [Hf Hi Hl Hcn] Hpr.
  destruct (cancelled pr) eqn:Hc; split; simpl;
    intros j r; rewrite lookup_delete_Some; intros (Hne & Hr);
    eauto.
  intros Hcr. destruct (Hl i pr Hpr Hc) as (Hci & _).
  destruct (Hl j r Hr Hcr) as (Hcj & _). congruence.
Qed.

Lemma preview_inv_step (w w' : World) (e : Event) :
  preview_inv w -> step w e = Some w' -> preview_inv w'.
Proof.
  intros H. destruct e as [| name | i r | i r]; simpl.
  - destruct (loading (ui w)); [discriminate |]. intros [= <-].
    apply preview_inv_refresh. exact H.
  - destruct (has_row name (ui w)); [| discriminate]. intros [= <-].
    apply preview_inv_select. exact H.
  - destruct (refreshes w !! i) as [c |]; [| discriminate]. intros [= <-].
    destruct r as [err | d].
    + apply preview_inv_refresh_rejected, preview_inv_drop_refresh, H.
    + apply preview_inv_refresh_resolved, preview_inv_drop_refresh, H.
  - destruct (previews w !! i) as [pr |] eqn:Hpr; [| discriminate].
    intros [= <-].
    destruct r as [err | next]; unfold preview_rejected, preview_resolved.
    + pose proof (preview_inv_settled i pr
                    (Some (mkPreview None (message err))) w H Hpr) as Hs.
      destruct (cancelled pr); exact Hs.
    + pose proof (preview_inv_settled i pr (Some next) w H Hpr) as Hs.
      destruct (cancelled pr); exact Hs.
Qed.

Lemma preview_inv_run (evs : list Event) :
  forall w w', preview_inv w -> run w evs = Some w' -> preview_inv w'.
Proof.
  induction evs as [| e evs IH]; intros w w' H; simpl.
  - intros [= <-]. exact H.
  - destruct (step w e) as [w1 |] eqn:Hs; [| discriminate].
    apply IH. exact (preview_inv_step w w1 e H Hs).
Qed.

Lemma preview_inv_mount : preview_inv mount.
Proof.
  split; simpl; intros i r H; rewrite lookup_empty in H; discriminate.
Qed.

Lemma preview_inv_reachable (w : World) : reachable w -> preview_inv w.
Proof.
  intros [evs H]. exact (preview_inv_run evs mount w preview_inv_mount H).
Qed.

End PreviewInvariant.

(** ** The preview flow *)

Section PreviewFlow.

Import App Inv.

Lemma step_preview_settled (w : World) (i : nat) (pr : PreviewRun)
    (res : Result PreviewPayload) :
  previews w !! i = Some pr ->
  step w (PreviewSettled i res)
  = Some (if cancelled pr then drop_preview i w
          else with_ui (setPreviewLoading false)
                       (with_ui (setPreview (Some (outcome res)))
                                (drop_preview i w))).
Proof.
  intros H. simpl. rewrite H.
  destruct res as [err | next]; unfold preview_rejected, preview_resolved;
    destruct (cancelled pr); reflexivity.
Qed.

(** C1.  Let a preview request be in flight in a reachable state.  If the
    selected file changed after the request was issued, its completion,
    fulfilled or rejected, changes nothing but the set of requests in
    flight: no cell of the component is written.  If the selection did not
    change since, the request is the one of the current selection and its
    outcome is what is stored.  So the stored preview is always the
    outcome of the latest selection, in whatever order the requests
    complete. *)
Theorem superseded_preview_discarded (w : World) (i : nat)
    (pr : PreviewRun) (res : Result PreviewPayload) :
  reachable w ->
  previews w !! i = Some pr ->
  exists w',
    step w (PreviewSettled i res) = Some w' /\
    (superseded w pr -> w' = drop_preview i w /\ ui w' = ui w) /\
    (~ superseded w pr ->
     run_file pr = selectedFile (ui w) /\
     preview (ui w') = Some (outcome res) /\
     previewLoading (ui w') = false).
Proof.
  intros Hreach Hpr.
  pose proof (preview_inv_reachable w Hreach) as Hinv.
  rewrite (step_preview_settled w i pr res Hpr).
  eexists. split; [reflexivity |].
  unfold superseded.
  destruct (cancelled pr) eqn:Hc.
  - split; [auto |]. intros Hn.
    pose proof (pv_cancelled w Hinv i pr Hpr Hc). lia.
  - destruct (pv_live w Hinv i pr Hpr Hc) as (_ & Hg & Hf & _).
    split; [intros Hs; contradiction |]. intros _. simpl. auto.
Qed.

Lemma superseded_preview_discarded_witness :
  exists w',
    step (Sample.after Sample.a_then_b)
         (PreviewSettled 1 (inr (Sample.rows_of "a.csv"))) = Some w' /\
    (superseded (Sample.after Sample.a_then_b) (mkRun "a.csv" true 1) ->
     w' = drop_preview 1 (Sample.after Sample.a_then_b) /\
     ui w' = ui (Sample.after Sample.a_then_b)) /\
    (~ superseded (Sample.after Sample.a_then_b) (mkRun "a.csv" true 1) ->
     run_file (mkRun "a.csv" true 1)
     = selectedFile (ui (Sample.after Sample.a_then_b)) /\
     preview (ui w') = Some (outcome (inr (Sample.rows_of "a.csv"))) /\
     previewLoading (ui w') = false).
Proof.
  apply (superseded_preview_discarded
           (Sample.after Sample.a_then_b) 1 (mkRun "a.csv" true 1)).
  - exists Sample.a_then_b. vm_compute. reflexivity.
  - vm_compute. reflexivity.
Defined.

Lemma truthy_empty (f : string) : truthy f = false <-> f = "".
Proof.
  unfold truthy. destruct (String.eqb_spec f ""); simpl; split; congruence.
Qed.

(** What [select] does to the cells and to the pending refreshes. *)
Lemma select_frame (f : string) (w : World) :
  selectedFile (ui (select f w)) = f /\
  loading (ui (select f w)) = loading (ui w) /\
  error (ui (select f w)) = error (ui w) /\
  payload (ui (select f w)) = payload (ui w) /\
  refreshes (select f w) = refreshes w.
Proof.
  unfold select. destruct (String.eqb_spec f (selectedFile (ui w))) as [-> | Hne].
  - auto.
  - unfold preview_effect, run_cleanup; simpl.
    destruct (cleanup w); simpl; destruct (truthy f); simpl; auto.
Qed.

(** The selection becoming empty: the effect only clears the preview. *)
Lemma select_empty (w : World) :
  selectedFile (ui w) <> "" ->
  select "" w
  = mkWorld (setPreview None (setSelectedFile "" (ui w))) (refreshes w)
            (previews (run_cleanup w)) None (next_id w) (S (generation w)).
Proof.
  intros Hne. unfold select.
  destruct (String.eqb_spec "" (selectedFile (ui w))) as [He | _];
    [congruence |].
  unfold preview_effect, run_cleanup; simpl.
  destruct (cleanup w); reflexivity.
Qed.

End PreviewFlow.

(** ** A cleared selection and [previewLoading] *)

Section StuckFlag.

Import App Inv.

Lemma select_same (w : World) : select (selectedFile (ui w)) w = w.
Proof. unfold select. rewrite String.eqb_refl. reflexivity. Qed.

(** A selection that ends up empty from an empty one did not change. *)
Lemma select_unselected (f : string) (w : World) :
  selectedFile (ui w) = "" -> selectedFile (ui (select f w)) = "" ->
  select f w = w.
Proof.
  intros Hw Hs. destruct (select_frame f w) as (Hf & _).
  rewrite Hf in Hs. subst f. rewrite <- Hw. apply select_same.
Qed.

Lemma stuck_step (w w' : World) (e : Event) :
  stuck w -> step w e = Some w' -> selectedFile (ui w') = "" -> stuck w'.
Proof.
  intros [Hs Hl Hp Hc]. destruct e as [| name | i r | i r]; simpl.
  - destruct (loading (ui w)); [discriminate |]. intros [= <-] _.
    split; simpl; assumption.
  - destruct (has_row name (ui w)); [| discriminate]. intros [= <-] He.
    rewrite (select_unselected name w Hs He). split; assumption.
  - destruct (refreshes w !! i) as [c |]; [| discriminate]. intros [= <-].
    destruct r as [err | d].
    + intros _. split; simpl; assumption.
    + unfold refresh_resolved.
      set (w1 := with_ui (setPayload (Some d)) (drop_refresh i w)).
      assert (H1 : stuck w1) by (split; simpl; assumption).
      destruct (files d) as [[| first rest] |];
        try (intros _; destruct H1; split; simpl; assumption).
      destruct (negb (truthy c));
        [| intros _; destruct H1; split; simpl; assumption].
      simpl. intros He.
      rewrite (select_unselected (file_name first) w1 Hs He).
      destruct H1; split; simpl; assumption.
  - destruct (previews w !! i) as [pr |] eqn:Hpr; [| discriminate].
    intros [= <-] _.
    assert (Hd : forall j r0, delete i (previews w) !! j = Some r0 ->
                              cancelled r0 = true).
    { intros j r0. rewrite lookup_delete_Some. intros (_ & H). eauto. }
    destruct r as [err | next]; unfold preview_rejected, preview_resolved;
      rewrite (Hc i pr Hpr); split; simpl; assumption.
Qed.

Lemma stuck_run (evs : list Event) :
  forall w w', stuck w -> run_unselected w evs = Some w' -> stuck w'.
Proof.
  induction evs as [| e evs IH]; intros w w' H; simpl.
  - intros [= <-]. exact H.
  - destruct (step w e) as [w1 |] eqn:Hs; [| discriminate].
    destruct (truthy (selectedFile (ui w1))) eqn:Ht; [discriminate |].
    apply IH. apply (stuck_step w w1 e H Hs). apply truthy_empty. exact Ht.
Qed.

(** C10, as the program has it.  Let the preview request of the current,
    non-empty selection be in flight in a reachable state, and let the
    selection become empty.  The preview is cleared and [previewLoading]
    is still set; the completion of the request, now superseded, writes no
    cell; and [previewLoading] stays set, with an empty preview, after
    any sequence of steps throughout which no file is selected. *)
Theorem cleared_selection_keeps_previewLoading (w : World) (i : nat)
    (pr : PreviewRun) :
  reachable w ->
  selectedFile (ui w) <> "" ->
  previews w !! i = Some pr ->
  ~ superseded w pr ->
  preview (ui (select "" w)) = None /\
  previewLoading (ui (select "" w)) = true /\
  (forall res, exists w2,
      step (select "" w) (PreviewSettled i res) = Some w2 /\
      ui w2 = ui (select "" w)) /\
  (forall evs w',
      run_unselected (select "" w) evs = Some w' ->
      previewLoading (ui w') = true /\ preview (ui w') = None).
Proof.
  intros Hreach Hne Hpr Hns.
  pose proof (preview_inv_reachable w Hreach) as Hinv.
  assert (Hc : cancelled pr = false).
  { destruct (cancelled pr) eqn:Hc; [| reflexivity]. exfalso. apply Hns.
    unfold superseded. pose proof (pv_cancelled w Hinv i pr Hpr Hc). lia. }
  destruct (pv_live w Hinv i pr Hpr Hc) as (Hcl & _ & _ & Hload).
  assert (Hall : forall j r, previews (run_cleanup w) !! j = Some r ->
                             cancelled r = true).
  { apply run_cleanup_cancels. intros j r H Hcr.
    exact (proj1 (pv_live w Hinv j r H Hcr)). }
  assert (Hstuck : stuck (select "" w)).
  { rewrite (select_empty w Hne). split; simpl; auto. }
  split; [exact (st_preview _ Hstuck) |].
  split; [exact (st_loading _ Hstuck) |]. split.
  - intros res.
    assert (Hi : previews (select "" w) !! i = Some (cancel pr)).
    { rewrite (select_empty w Hne). simpl. unfold run_cleanup.
      rewrite Hcl. simpl. rewrite lookup_alter_eq, Hpr. reflexivity. }
    rewrite (step_preview_settled _ i (cancel pr) res Hi). simpl.
    eexists. split; reflexivity.
  - intros evs w' Hrun.
    pose proof (stuck_run evs _ w' Hstuck Hrun) as [_ Hl Hp _]. auto.
Qed.

Lemma cleared_selection_keeps_previewLoading_witness :
  preview (ui (select "" (Sample.after Sample.a_loading))) = None /\
  previewLoading (ui (select "" (Sample.after Sample.a_loading))) = true /\
  (forall res, exists w2,
      step (select "" (Sample.after Sample.a_loading))
           (PreviewSettled 1 res) = Some w2 /\
      ui w2 = ui (select "" (Sample.after Sample.a_loading))) /\
  (forall evs w',
      run_unselected (select "" (Sample.after Sample.a_loading)) evs
      = Some w' ->
      previewLoading (ui w') = true /\ preview (ui w') = None).
Proof.
  apply (cleared_selection_keeps_previewLoading
           (Sample.after Sample.a_loading) 1 (mkRun "a.csv" false 1)).
  - exists Sample.a_loading. vm_compute. reflexivity.
  - vm_compute. discriminate.
  - vm_compute. reflexivity.
  - vm_compute. intros H. apply H. reflexivity.
Defined.

(** C10 as stated fails: after the selection was cleared with the preview
    of ["a.csv"] in flight, that request completes, ["b.csv"] is selected
    and its preview arrives, which resets [previewLoading]. *)
Lemma previewLoading_reset_later :
  reachable (Sample.after Sample.a_loading) /\
  selectedFile (ui (Sample.after Sample.a_loading)) = "a.csv" /\
  previews (Sample.after Sample.a_loading) !! 1%nat
  = Some (mkRun "a.csv" false 1) /\
  previewLoading (ui (select "" (Sample.after Sample.a_loading))) = true /\
  exists w',
    run (select "" (Sample.after Sample.a_loading))
        [PreviewSettled 1 (inr (Sample.rows_of "a.csv"));
         ClickRow "b.csv";
         PreviewSettled 2 (inr (Sample.rows_of "b.csv"))] = Some w' /\
    previewLoading (ui w') = false.
Proof.
  split; [exists Sample.a_loading; vm_compute; reflexivity |].
  split; [vm_compute; reflexivity |].
  split; [vm_compute; reflexivity |].
  split; [vm_compute; reflexivity |].
  eexists. split; vm_compute; reflexivity.
Qed.

End StuckFlag.

(** ** The refresh flow *)

Section RefreshFlow.

Import App Inv.

Lemma step_summary_settled (w : World) (i : nat) (c : string)
    (res : Result SummaryPayload) :
  refreshes w !! i = Some c ->
  step w (SummarySettled i res)
  = Some match res with
         | inr data => refresh_resolved c data (drop_refresh i w)
         | inl err => refresh_rejected err (drop_refresh i w)
         end.
Proof. intros H. simpl. rewrite H. reflexivity. Qed.

(** The cells of [refresh_resolved]. *)
Lemma refresh_resolved_frame (c : string) (d : SummaryPayload) (w : World) :
  loading (ui (refresh_resolved c d w)) = false /\
  error (ui (refresh_resolved c d w)) = error (ui w) /\
  payload (ui (refresh_resolved c d w)) = Some d /\
  refreshes (refresh_resolved c d w) = refreshes w /\
  selectedFile (ui (refresh_resolved c d w))
  = match files d with
    | Some (first :: _) =>
        if truthy c then selectedFile (ui w) else file_name first
    | _ => selectedFile (ui w)
    end.
Proof.
  unfold refresh_resolved.
  set (w1 := with_ui (setPayload (Some d)) w).
  destruct (files d) as [[| first rest] |]; simpl; auto.
  destruct (truthy c); simpl; auto.
  destruct (select_frame (file_name first) w1) as (H1 & H2 & H3 & H4 & H5).
  rewrite H1, H3, H4, H5. auto.
Qed.

















Lemma one_refresh_frame (w w' : World) :
  refreshes w' = refreshes w -> loading (ui w') = loading (ui w) ->
  one_refresh w -> one_refresh w'.
Proof. unfold one_refresh. intros -> ->. auto. Qed.

Lemma one_refresh_step (w w' : World) (e : Event) :
  one_refresh w -> step w e = Some w' -> one_refresh w'.
Proof.
  intros Hinv. destruct e as [| name | i r | i r]; simpl.
  - destruct (loading (ui w)) eqn:Hl; [discriminate |]. intros [= <-].
    destruct Hinv as [(He & _) | (i & c & _ & Ht)]; [| congruence].
    right. exists (next_id w), (selectedFile (ui w)). simpl.
    rewrite He, insert_empty. auto.
  - destruct (has_row name (ui w)); [| discriminate]. intros [= <-].
    destruct (select_frame name w) as (_ & Hl & _ & _ & Hr).
    exact (one_refresh_frame w _ Hr Hl Hinv).
  - destruct (refreshes w !! i) as [c |] eqn:Hi; [| discriminate].
    intros [= <-].
    assert (Hd : delete i (refreshes w) = ∅).
    { destruct Hinv as [(He & _) | (j & c' & Hj & _)].
      - rewrite He, lookup_empty in Hi. discriminate.
      - rewrite Hj in Hi. apply lookup_singleton_Some in Hi.
        destruct Hi as (-> & _). rewrite Hj. apply delete_singleton_eq. }
    left. destruct r as [err | d].
    + simpl. auto.
    + destruct (refresh_resolved_frame c d (drop_refresh i w))
        as (Hl & _ & _ & Hr & _).
      rewrite Hr, Hl. simpl. auto.
  - destruct (previews w !! i) as [pr |]; [| discriminate]. intros [= <-].
    destruct r as [err | next]; unfold preview_rejected, preview_resolved;
      destruct (cancelled pr); apply (one_refresh_frame w); auto.
Qed.

Lemma one_refresh_run (evs : list Event) :
  forall w w', one_refresh w -> run w evs = Some w' -> one_refresh w'.
Proof.
  induction evs as [| e evs IH]; intros w w' H; simpl.
  - intros [= <-]. exact H.
  - destruct (step w e) as [w1 |] eqn:Hs; [| discriminate].
    apply IH. exact (one_refresh_step w w1 e H Hs).
Qed.

(** Refreshes never overlap: in every reachable state, whatever the backend
    sent, a summary request is in flight exactly when [loading] is set,
    there is at most one, and the Refresh button does nothing meanwhile. *)
Theorem refreshes_never_overlap (w : World) :
  reachable w ->
  (loading (ui w) = true <-> exists i c, refreshes w !! i = Some c) /\
  (forall i j c c',
      refreshes w !! i = Some c -> refreshes w !! j = Some c' -> i = j) /\
  (loading (ui w) = true -> step w ClickRefresh = None).
Proof.
  intros (evs & Hrun).
  assert (Hm : one_refresh mount).
  { right. exists 0%nat, "". simpl. rewrite insert_empty. auto. }
  pose proof (one_refresh_run evs mount w Hm Hrun) as Hinv.
  split; [| split].
  - destruct Hinv as [(He & Hl) | (i & c & Hi & Hl)]; split.
    + congruence.
    + intros (i & c & Hi). rewrite He, lookup_empty in Hi. discriminate.
    + intros _. exists i, c. rewrite Hi. apply lookup_singleton_eq.
    + intros _. exact Hl.
  - intros i j c c' Hi Hj.
    destruct Hinv as [(He & _) | (k & c0 & Hk & _)].
    + rewrite He, lookup_empty in Hi. discriminate.
    + rewrite Hk in Hi, Hj.
      apply lookup_singleton_Some in Hi. apply lookup_singleton_Some in Hj.
      destruct Hi as (<- & _). destruct Hj as (<- & _). reflexivity.
  - intros Hl. simpl. rewrite Hl. reflexivity.
Qed.

Lemma refreshes_never_overlap_witness :
  (loading (ui mount) = true <-> exists i c, refreshes mount !! i = Some c) /\
  (forall i j c c',
      refreshes mount !! i = Some c -> refreshes mount !! j = Some c' ->
      i = j) /\
  (loading (ui mount) = true -> step mount ClickRefresh = None).
Proof.
  apply (refreshes_never_overlap mount). exists []. reflexivity.
Defined.

(** C7.  When the summary request of a pending refresh fails, the error
    cell receives the failure's message, or ["Failed to load dashboard"]
    when the failure carries no message or an empty one, and the stored
    payload (as well as the selection and the preview) is left
    untouched. *)
Theorem refresh_failure_keeps_payload (w : World) (i : nat) (c : string)
    (err : JsError) :
  refreshes w !! i = Some c ->
  exists w',
    step w (SummarySettled i (inl err)) = Some w' /\
    (forall m, message err = Some m -> m <> "" -> error (ui w') = m) /\
    (message err = None \/ message err = Some "" ->
     error (ui w') = "Failed to load dashboard") /\
    payload (ui w') = payload (ui w) /\
    selectedFile (ui w') = selectedFile (ui w) /\
    preview (ui w') = preview (ui w).
Proof.
  intros Hi. rewrite (step_summary_settled w i c _ Hi).
  eexists. split; [reflexivity |]. simpl. unfold error_text.
  split; [| split; [| auto]].
  - intros m Hm Hne. rewrite Hm.
    destruct (truthy m) eqn:Ht; [reflexivity |].
    apply truthy_empty in Ht. contradiction.
  - intros [Hm | Hm]; rewrite Hm; reflexivity.
Qed.

Lemma refresh_failure_keeps_payload_witness :
  exists w',
    step (Sample.after [SummarySettled 0 (inr Sample.two_files); ClickRefresh])
         (SummarySettled 2 (inl (mkError (Some "Request failed (500): boom"))))
    = Some w' /\
    error (ui w') = "Request failed (500): boom" /\
    payload (ui w') = Some Sample.two_files.
Proof.
  destruct (refresh_failure_keeps_payload
              (Sample.after [SummarySettled 0 (inr Sample.two_files);
                             ClickRefresh])
              2 "a.csv" (mkError (Some "Request failed (500): boom")))
    as (w' & Hstep & Hmsg & _ & Hp & _).
  - vm_compute. reflexivity.
  - exists w'. split; [exact Hstep |]. split.
    + apply Hmsg; [reflexivity | discriminate].
    + rewrite Hp. vm_compute. reflexivity.
Defined.

(** C8.  Called in any state [w0], whatever its error message and its
    [loading], [refresh] sets [loading], clears the error message, leaves
    the other cells as they are and issues its summary request; it is what
    the Refresh button runs when enabled, and what mounting runs.  Whatever
    happens before that request settles, the step in which it settles,
    fulfilled or rejected, clears [loading]. *)
Theorem refresh_loading_lifecycle (w0 : World) :
  (loading (ui (refresh w0)) = true /\
   error (ui (refresh w0)) = "" /\
   payload (ui (refresh w0)) = payload (ui w0) /\
   selectedFile (ui (refresh w0)) = selectedFile (ui w0) /\
   preview (ui (refresh w0)) = preview (ui w0) /\
   previewLoading (ui (refresh w0)) = previewLoading (ui w0) /\
   refreshes (refresh w0) !! next_id w0 = Some (selectedFile (ui w0))) /\
  (loading (ui w0) = false -> step w0 ClickRefresh = Some (refresh w0)) /\
  mount = refresh init /\
  (forall (evs : list Event) (w : World) (c : string)
          (res : Result SummaryPayload),
      run (refresh w0) evs = Some w ->
      refreshes w !! next_id w0 = Some c ->
      exists w',
        step w (SummarySettled (next_id w0) res) = Some w' /\
        loading (ui w') = false /\
        refreshes w' !! next_id w0 = None).
Proof.
  split; [| split; [| split]].
  - simpl. rewrite lookup_insert_eq. repeat split; reflexivity.
  - intros Hl. simpl. rewrite Hl. reflexivity.
  - reflexivity.
  - intros evs w c res _ Hi.
    rewrite (step_summary_settled w _ c _ Hi). eexists.
    split; [reflexivity |]. destruct res as [err | d].
    + simpl. split; [reflexivity |]. apply lookup_delete_eq.
    + destruct (refresh_resolved_frame c d (drop_refresh (next_id w0) w))
        as (Hl & _ & _ & Hr & _).
      split; [exact Hl |]. rewrite Hr. simpl. apply lookup_delete_eq.
Qed.

(** The first summary request failed; the Refresh button is clicked (the
    message goes away), a row cannot be clicked as none is listed, and the
    second request settles either way. *)
Lemma refresh_loading_lifecycle_witness :
  error (ui (Sample.after Sample.first_load_failed)) = "boom" /\
  loading (ui (Sample.after Sample.first_load_failed)) = false /\
  step (Sample.after Sample.first_load_failed) ClickRefresh
  = Some (refresh (Sample.after Sample.first_load_failed)) /\
  loading (ui (refresh (Sample.after Sample.first_load_failed))) = true /\
  error (ui (refresh (Sample.after Sample.first_load_failed))) = "" /\
  (exists w',
      step (refresh (Sample.after Sample.first_load_failed))
           (SummarySettled 1 (inr Sample.two_files)) = Some w' /\
      loading (ui w') = false) /\
  (exists w',
      step (refresh (Sample.after Sample.first_load_failed))
           (SummarySettled 1 (inl (mkError None))) = Some w' /\
      loading (ui w') = false).
Proof.
  destruct (refresh_loading_lifecycle (Sample.after Sample.first_load_failed))
    as ((Hl & He & _) & Hclick & _ & Hexit).
  split; [vm_compute; reflexivity |]. split; [vm_compute; reflexivity |].
  split; [apply Hclick; vm_compute; reflexivity |].
  split; [exact Hl |]. split; [exact He |]. split.
  - destruct (Hexit [] (refresh (Sample.after Sample.first_load_failed)) ""
                    (inr Sample.two_files) eq_refl)
      as (w' & Hs & Hf & _); [vm_compute; reflexivity |].
    exists w'. split; [exact Hs | exact Hf].
  - destruct (Hexit [] (refresh (Sample.after Sample.first_load_failed)) ""
                    (inl (mkError None)) eq_refl)
      as (w' & Hs & Hf & _); [vm_compute; reflexivity |].
    exists w'. split; [exact Hs | exact Hf].
Defined.

End RefreshFlow.

(** ** The selection becoming empty *)

Section EmptySelection.

Import App Inv.

Lemma select_empty_only_clears (w : World) :
  selectedFile (ui w) <> "" -> only_clears_preview w (select "" w).
Proof.
  intros Hne. rewrite (select_empty w Hne). unfold only_clears_preview. simpl.
  repeat split.
  - unfold run_cleanup. destruct (cleanup w); simpl; [| reflexivity].
    apply dom_alter_L.
  - intros i r H. apply run_cleanup_lookup in H.
    destruct H as (r0 & H0 & Hf & _). exists r0. auto.
Qed.

(** C9.  When the selection becomes empty, the preview effect stores the
    empty preview and issues no request: the requests in flight are the
    same ones, asking for the same files, and no identifier is consumed.
    [setSelectedFile('')] followed by the effect leaves every other cell
    ([loading], [error], [payload], [previewLoading]) and the pending
    refreshes as they were; and whichever event makes the selection empty,
    that is all the preview flow does in that step. *)
Theorem empty_selection_clears_preview (w : World) :
  selectedFile (ui w) <> "" ->
  (only_clears_preview w (select "" w) /\
   loading (ui (select "" w)) = loading (ui w) /\
   error (ui (select "" w)) = error (ui w) /\
   payload (ui (select "" w)) = payload (ui w) /\
   refreshes (select "" w) = refreshes w) /\
  (forall e w',
      step w e = Some w' -> selectedFile (ui w') = "" ->
      only_clears_preview w w').
Proof.
  intros Hne. split.
  - split; [apply select_empty_only_clears; exact Hne |].
    destruct (select_frame "" w) as (_ & Hl & He & Hp & Hr). auto.
  - intros e w'. destruct e as [| name | i r | i r]; simpl.
    + destruct (loading (ui w)); [discriminate |]. intros [= <-]. simpl.
      intros He. contradiction.
    + destruct (has_row name (ui w)); [| discriminate]. intros [= <-] He.
      destruct (select_frame name w) as (Hs & _). rewrite Hs in He.
      subst name. apply select_empty_only_clears. exact Hne.
    + destruct (refreshes w !! i) as [c |]; [| discriminate]. intros [= <-].
      destruct r as [err | d]; [simpl; intros He; contradiction |].
      destruct (refresh_resolved_frame c d (drop_refresh i w))
        as (_ & _ & _ & _ & Hs).
      rewrite Hs. simpl. unfold refresh_resolved.
      destruct (files d) as [[| first rest] |];
        try (intros He; contradiction).
      destruct (truthy c); simpl; [intros He; contradiction |].
      intros He. rewrite He.
      set (w1 := with_ui (setPayload (Some d)) (drop_refresh i w)).
      assert (H1 : selectedFile (ui w1) <> "") by exact Hne.
      pose proof (select_empty_only_clears w1 H1) as Hc.
      unfold only_clears_preview in *. simpl. exact Hc.
    + destruct (previews w !! i) as [pr |]; [| discriminate]. intros [= <-].
      destruct r as [err | next]; unfold preview_rejected, preview_resolved;
        destruct (cancelled pr); simpl; intros He; contradiction.
Qed.

Lemma empty_selection_clears_preview_witness :
  (only_clears_preview (Sample.after Sample.a_loading)
                       (select "" (Sample.after Sample.a_loading)) /\
   loading (ui (select "" (Sample.after Sample.a_loading)))
   = loading (ui (Sample.after Sample.a_loading)) /\
   error (ui (select "" (Sample.after Sample.a_loading)))
   = error (ui (Sample.after Sample.a_loading)) /\
   payload (ui (select "" (Sample.after Sample.a_loading)))
   = payload (ui (Sample.after Sample.a_loading)) /\
   refreshes (select "" (Sample.after Sample.a_loading))
   = refreshes (Sample.after Sample.a_loading)) /\
  (forall e w',
      step (Sample.after Sample.a_loading) e = Some w' ->
      selectedFile (ui w') = "" ->
      only_clears_preview (Sample.after Sample.a_loading) w').
Proof.
  apply (empty_selection_clears_preview (Sample.after Sample.a_loading)).
  vm_compute. discriminate.
Defined.

End EmptySelection.

(** ** The API client *)

Section ApiClient.

Import Api.

(** C2.  Whatever the base URL, the transport and the body parsers, when
    the response to [getSummary] or to [getFilePreview] has a status
    outside 200-299, the call fails with an error whose message is
    [Request failed (<status>): <body>]: the decimal status code and the
    body text, verbatim. *)
Theorem non_2xx_is_request_failed
    (API_BASE : string) (encodeURIComponent : string -> string)
    (fetch : string -> FetchResult)
    (json_summary : string -> Result SummaryPayload)
    (json_preview : string -> Result PreviewPayload)
    (r : Response) :
  (status r < 200 \/ 299 < status r)%nat ->
  (fetch (summary_url API_BASE) = Responded r ->
   getSummary API_BASE fetch json_summary
   = inl (mkError (Some ("Request failed (" +:+ number_to_string (status r)
                           +:+ "): " +:+ text r)))) /\
  (forall fileName rows,
      fetch (preview_url API_BASE encodeURIComponent fileName rows)
      = Responded r ->
      getFilePreview API_BASE encodeURIComponent fetch json_preview
                     fileName rows
      = inl (mkError (Some ("Request failed (" +:+ number_to_string (status r)
                              +:+ "): " +:+ text r)))).
Proof.
  intros Hst.
  assert (Hok : ok r = false).
  { unfold ok. apply andb_false_iff.
    destruct Hst as [H | H]; [left | right]; apply Nat.leb_gt; lia. }
  split.
  - intros Hf. unfold getSummary, requestJson. rewrite Hf, Hok. reflexivity.
  - intros fileName rows Hf. unfold getFilePreview, requestJson.
    rewrite Hf, Hok. reflexivity.
Qed.

Lemma non_2xx_is_request_failed_witness :
  getSummary "http://localhost:8000"
             (fun _ => Responded (mkResponse 404 "Not Found"))
             (fun _ => inl (mkError None))
  = inl (mkError (Some "Request failed (404): Not Found")) /\
  getFilePreview "http://localhost:8000" (fun s => s)
                 (fun _ => Responded (mkResponse 404 "Not Found"))
                 (fun _ => inl (mkError None)) "a.csv" 20
  = inl (mkError (Some "Request failed (404): Not Found")).
Proof.
  destruct (non_2xx_is_request_failed
              "http://localhost:8000" (fun s => s)
              (fun _ => Responded (mkResponse 404 "Not Found"))
              (fun _ => inl (mkError None)) (fun _ => inl (mkError None))
              (mkResponse 404 "Not Found")) as [Hs Hp].
  - right. simpl. lia.
  - split; [apply Hs | apply Hp]; reflexivity.
Defined.

End ApiClient.

(** ** Sizes as [formatBytes] shows them *)

Section FormatFacts.

Import Rounding Format.

Lemma of_Z_1024 : Number.of_Z 1024 = S754_finite false 4503599627370496 (-42).
Proof. reflexivity. Qed.

(** Comparing a normal positive Number with 1024 compares exponents. *)
Lemma ge_1024_normal (m : positive) (e : Z) :
  2 ^ 52 <= Z.pos m < 2 ^ 53 ->
  ge_1024 (S754_finite false m e) = (-42 <=? e).
Proof.
  intros Hm. unfold ge_1024. rewrite of_Z_1024. unfold SFleb, SFcompare.
  destruct (Z.compare_spec (-42) e) as [He | He | He].
  - subst e. simpl Z.leb.
    change (Pos.compare_cont Eq 4503599627370496 m)
      with (Pos.compare 4503599627370496 m).
    destruct (Pos.compare_spec 4503599627370496 m) as [Hc | Hc | Hc];
      try reflexivity.
    exfalso. apply Pos2Z.pos_lt_pos in Hc.
    change (2 ^ 52) with 4503599627370496 in Hm. destruct Hm as [Hm _].
    clear - Hm Hc. lia.
  - symmetry. apply Z.leb_le. lia.
  - symmetry. apply Z.leb_gt. lia.
Qed.

(** Dividing a normal Number by 1024 only lowers its exponent. *)
Lemma div_1024_exact (m : positive) (e : Z) :
  2 ^ 52 <= Z.pos m < 2 ^ 53 -> -1000 <= e <= 900 ->
  Number.div (S754_finite false m e) (Number.of_Z 1024)
  = S754_finite false m (e - 10).
Proof.
  intros Hm He. rewrite of_Z_1024.
  assert (Hd : Zdigits2 (Z.pos m) = 53) by (apply Zdigits2_unique; simpl; lia).
  rewrite div_unfold by (try exact Hd; try reflexivity; lia).
  change (Z.pos 4503599627370496) with (2 ^ 52).
  set (A := Z.pos m * 2 ^ 53).
  assert (HA : A = 2 * Z.pos m * 2 ^ 52)
    by (unfold A; change (2 ^ 53) with (2 * 2 ^ 52); ring).
  assert (Hq : A / 2 ^ 52 = 2 * Z.pos m)
    by (rewrite HA; apply Z.div_mul; discriminate).
  assert (Hr : A mod 2 ^ 52 = 0)
    by (rewrite HA; apply Z.mod_mul; discriminate).
  assert (Hdq : Zdigits2 (A / 2 ^ 52) = 54).
  { rewrite Hq. apply Zdigits2_unique; [| lia].
    change (2 ^ (54 - 1)) with (2 * 2 ^ 52). change (2 ^ 54) with (2 * 2 ^ 53).
    lia. }
  destruct (binary_round_aux_normal false A (2 ^ 52) (A / 2 ^ 52)
              (e - -42 - 53) (new_location (2 ^ 52) (A mod 2 ^ 52)))
    as (mf & ef & Heq & Hmf & Hcase).
  - apply new_location_located; [reflexivity | unfold A; lia].
  - rewrite Hq. lia.
  - rewrite Hdq. lia.
  - rewrite Hdq. lia.
  - rewrite Heq. rewrite Hdq in Hcase. change (54 - 53) with 1 in Hcase.
    assert (Hrne : rne A (2 ^ 52 * 2 ^ 1) = Z.pos m).
    { change (2 ^ 52 * 2 ^ 1) with (2 ^ 53). unfold A.
      apply rne_exact. reflexivity. }
    rewrite Hrne in Hcase.
    destruct Hcase as [[Hv Hef] | [Hv _]]; [| lia].
    f_equal; lia.
Qed.

(** The loop on a normal Number of exponent [e]: one division for every
    ten binary orders of magnitude from 1024 on, three at most. *)
Lemma scale_normal (m : positive) (e : Z) :
  2 ^ 52 <= Z.pos m < 2 ^ 53 -> -52 <= e <= 0 ->
  scale (length units - 1) (S754_finite false m e) 0
  = if e <? -42 then (S754_finite false m e, 0%nat)
    else if e <? -32 then (S754_finite false m (e - 10), 1%nat)
    else if e <? -22 then (S754_finite false m (e - 10 - 10), 2%nat)
    else (S754_finite false m (e - 10 - 10 - 10), 3%nat).
Proof.
  intros Hm He. change (length units - 1)%nat with 3%nat.
  cbn [scale]. change (length units - 1)%nat with 3%nat.
  change (Nat.ltb 0 3) with true. change (Nat.ltb 1 3) with true.
  change (Nat.ltb 2 3) with true.
  rewrite (ge_1024_normal m e Hm), andb_true_r.
  destruct (Z.ltb_spec e (-42)) as [H1 | H1].
  { replace (-42 <=? e) with false by (symmetry; apply Z.leb_gt; lia).
    reflexivity. }
  replace (-42 <=? e) with true by (symmetry; apply Z.leb_le; lia).
  rewrite (div_1024_exact m e Hm) by lia.
  rewrite (ge_1024_normal m (e - 10) Hm), andb_true_r.
  destruct (Z.ltb_spec e (-32)) as [H2 | H2].
  { replace (-42 <=? e - 10) with false by (symmetry; apply Z.leb_gt; lia).
    reflexivity. }
  replace (-42 <=? e - 10) with true by (symmetry; apply Z.leb_le; lia).
  rewrite (div_1024_exact m (e - 10) Hm) by lia.
  rewrite (ge_1024_normal m (e - 10 - 10) Hm), andb_true_r.
  destruct (Z.ltb_spec e (-22)) as [H3 | H3].
  { replace (-42 <=? e - 10 - 10) with false
      by (symmetry; apply Z.leb_gt; lia).
    reflexivity. }
  replace (-42 <=? e - 10 - 10) with true by (symmetry; apply Z.leb_le; lia).
  rewrite (div_1024_exact m (e - 10 - 10) Hm) by lia.
  reflexivity.
Qed.

(** The size of an integer against a power of two, read off the exponent of
    its normal form. *)
Lemma size_below (b e j : Z) (m : positive) :
  Z.pos m = b * 2 ^ (- e) -> 2 ^ 52 <= Z.pos m < 2 ^ 53 ->
  e <= 0 -> 0 <= j <= 52 ->
  (b <? 2 ^ j) = (e <? j - 52).
Proof.
  intros Hv Hm He Hj.
  assert (Hb : 0 < b).
  { assert (0 < 2 ^ (- e)) by (apply Z.pow_pos_nonneg; lia).
    assert (0 < 2 ^ 52) by reflexivity. nia. }
  destruct (Z.ltb_spec e (j - 52)) as [H | H].
  - apply Z.ltb_lt.
    assert (Hp : 2 ^ (53 - j) <= 2 ^ (- e)) by (apply Z.pow_le_mono_r; lia).
    assert (H53 : 2 ^ j * 2 ^ (53 - j) = 2 ^ 53)
      by (rewrite <- Z.pow_add_r by lia; f_equal; lia).
    assert (Hq : 0 < 2 ^ (53 - j)) by (apply Z.pow_pos_nonneg; lia).
    assert (Hle : b * 2 ^ (53 - j) <= b * 2 ^ (- e))
      by (apply Z.mul_le_mono_nonneg_l; lia).
    apply (Z.mul_lt_mono_pos_r (2 ^ (53 - j))); [exact Hq |]. lia.
  - apply Z.ltb_ge.
    assert (Hp : 2 ^ (- e) <= 2 ^ (52 - j)) by (apply Z.pow_le_mono_r; lia).
    assert (H52 : 2 ^ j * 2 ^ (52 - j) = 2 ^ 52)
      by (rewrite <- Z.pow_add_r by lia; f_equal; lia).
    assert (Hq : 0 < 2 ^ (52 - j)) by (apply Z.pow_pos_nonneg; lia).
    assert (Hle : b * 2 ^ (- e) <= b * 2 ^ (52 - j))
      by (apply Z.mul_le_mono_nonneg_l; lia).
    apply (Z.mul_le_mono_pos_r _ _ (2 ^ (52 - j))); [exact Hq |]. lia.
Qed.

Lemma below_1e21 (m : positive) (e : Z) :
  Z.pos m < 2 ^ 53 -> e < 0 -> ge_1e21 m e = false.
Proof.
  intros Hm He. unfold ge_1e21.
  replace (0 <=? e) with false by (symmetry; apply Z.leb_gt; lia).
  apply Z.leb_gt.
  assert (Hp : 1 <= 2 ^ (- e))
    by (assert (0 < 2 ^ (- e)) by (apply Z.pow_pos_nonneg; lia); lia).
  assert (H21 : 2 ^ 53 < 10 ^ 21) by reflexivity.
  assert (H0 : 0 < 10 ^ 21) by reflexivity.
  nia.
Qed.

(** The rounding of [toFixed], on the quotient of an integer [b] by a power
    of two [2^j], is the round-half-up of [b * 10^f / 2^j]. *)
Lemma scaled_round_quotient (b e j : Z) (m : positive) (f : nat) :
  Z.pos m = b * 2 ^ (- e) -> e <= 0 -> 0 <= j -> e - j < 0 ->
  scaled_round m (e - j) f
  = Spec.round_half_up (10 ^ Z.of_nat f * b) (2 ^ j).
Proof.
  intros Hv He Hj Hneg. unfold scaled_round, Spec.round_half_up.
  replace (0 <=? e - j) with false by (symmetry; apply Z.leb_gt; lia).
  set (P := 2 ^ (- e)). set (T := 10 ^ Z.of_nat f).
  assert (HP : 0 < P) by (apply Z.pow_pos_nonneg; lia).
  assert (HJ : 0 < 2 ^ j) by (apply Z.pow_pos_nonneg; lia).
  replace (2 ^ (- (e - j))) with (2 ^ j * P)
    by (unfold P; rewrite <- Z.pow_add_r by lia; f_equal; lia).
  replace (2 ^ (1 - (e - j))) with (2 * 2 ^ j * P)
    by (unfold P; replace (1 - (e - j)) with (Z.succ (j + - e)) by lia;
        rewrite Z.pow_succ_r, Z.pow_add_r by lia; ring).
  rewrite Hv. fold P.
  replace (2 * (b * P * T) + 2 ^ j * P) with ((2 * (T * b) + 2 ^ j) * P) by ring.
  apply Z.div_mul_cancel_r; lia.
Qed.

Lemma scaled_round_bytes (b e : Z) (m : positive) :
  Z.pos m = b * 2 ^ (- e) -> e < 0 -> scaled_round m e 0 = b.
Proof.
  intros Hv He.
  pose proof (scaled_round_quotient b e 0 m 0 Hv) as H.
  replace (e - 0) with e in H by lia. rewrite H by lia.
  unfold Spec.round_half_up. change (10 ^ Z.of_nat 0) with 1.
  change (2 ^ 0) with 1. replace (2 * (1 * b) + 1) with (1 + b * 2) by ring.
  change (2 * 1) with 2. rewrite Z.div_add by discriminate. reflexivity.
Qed.

Lemma toFixed_scaled (large : spec_float -> string) (b e j : Z)
    (m : positive) (f : nat) :
  Z.pos m = b * 2 ^ (- e) -> Z.pos m < 2 ^ 53 -> e <= 0 -> 0 <= j ->
  e - j < 0 ->
  toFixed large (S754_finite false m (e - j)) f
  = fixed_digits (Spec.round_half_up (10 ^ Z.of_nat f * b) (2 ^ j)) f.
Proof.
  intros Hv Hm He Hj Hneg. unfold toFixed.
  rewrite (below_1e21 m (e - j) Hm Hneg).
  rewrite (scaled_round_quotient b e j m f Hv He Hj Hneg). reflexivity.
Qed.

(** [formatBytes] on a whole number of bytes below [2^53]: the double
    arithmetic of the loop loses nothing, and the label is the exact
    one. *)
Theorem formatBytes_exact (large : spec_float -> string) (b : Z) :
  0 <= b < 2 ^ 53 ->
  formatBytes large (Some (Number.of_Z b)) = exact_label b.
Proof.
  intros Hb. destruct (Z.eq_dec b 0) as [-> | Hne]; [reflexivity |].
  destruct (of_Z_exact b) as (m & e & Hof & Hm & He & Hv); [lia |].
  assert (H10 : (b <? 1024) = (e <? -42))
    by (apply (size_below b e 10 m Hv Hm); lia).
  assert (H20 : (b <? 1024 ^ 2) = (e <? -32))
    by (apply (size_below b e 20 m Hv Hm); lia).
  assert (H30 : (b <? 1024 ^ 3) = (e <? -22))
    by (apply (size_below b e 30 m Hv Hm); lia).
  unfold formatBytes, exact_label. rewrite Hof, H10, H20, H30.
  cbn [or_zero]. rewrite (scale_normal m e Hm He).
  destruct (e <? -42) eqn:E1; [| destruct (e <? -32) eqn:E2;
                                 [| destruct (e <? -22) eqn:E3]].
  - apply Z.ltb_lt in E1. cbn [Nat.eqb]. unfold toFixed.
    rewrite (below_1e21 m e) by lia.
    rewrite (scaled_round_bytes b e m Hv) by lia. reflexivity.
  - cbn [Nat.eqb].
    rewrite (toFixed_scaled large b e 10 m 2 Hv) by lia. reflexivity.
  - cbn [Nat.eqb]. replace (e - 10 - 10) with (e - 20) by lia.
    rewrite (toFixed_scaled large b e 20 m 2 Hv) by lia. reflexivity.
  - cbn [Nat.eqb]. replace (e - 10 - 10 - 10) with (e - 30) by lia.
    rewrite (toFixed_scaled large b e 30 m 2 Hv) by lia. reflexivity.
Qed.

(** A size that is missing, zero or not a number is shown as no bytes. *)
Lemma formatBytes_falsy (large : spec_float -> string)
    (bytes : option spec_float) :
  or_zero bytes = S754_zero false -> formatBytes large bytes = "0 B".
Proof. intros H. unfold formatBytes. rewrite H. reflexivity. Qed.

Lemma round_half_up_range (b K : Z) :
  0 < K -> K <= b < 1024 * K ->
  100 <= Spec.round_half_up (100 * b) K <= 102400.
Proof.
  intros HK Hb. unfold Spec.round_half_up. split.
  - apply Z.div_le_lower_bound; lia.
  - assert (H : (2 * (100 * b) + K) / (2 * K) < 102401); [| lia].
    apply Z.div_lt_upper_bound; lia.
Qed.

(** The unit is chosen before rounding: between 1024 bytes and one GB, the
    number in front of the unit lies between 1.00 and 1024.00, both
    reached. *)
Theorem formatBytes_unit_range (large : spec_float -> string) (b : Z) :
  1024 <= b < 1024 ^ 3 ->
  exists n unit,
    formatBytes large (Some (Number.of_Z b))
    = fixed_digits n 2 +:+ " " +:+ unit /\
    100 <= n <= 102400 /\
    (unit = "KB" /\ b < 1024 ^ 2 \/ unit = "MB" /\ 1024 ^ 2 <= b).
Proof.
  intros Hb.
  rewrite (formatBytes_exact large b)
    by (change (2 ^ 53) with (8388608 * 1024 ^ 3); lia).
  unfold exact_label.
  replace (b <? 1024) with false by (symmetry; apply Z.ltb_ge; lia).
  destruct (Z.ltb_spec b (1024 ^ 2)) as [H2 | H2].
  - exists (Spec.round_half_up (100 * b) 1024), "KB".
    split; [reflexivity |]. split; [| left; auto].
    apply round_half_up_range; lia.
  - replace (b <? 1024 ^ 3) with true by (symmetry; apply Z.ltb_lt; lia).
    exists (Spec.round_half_up (100 * b) (1024 ^ 2)), "MB".
    split; [reflexivity |]. split; [| right; auto].
    apply round_half_up_range; [reflexivity |].
    change (1024 * 1024 ^ 2) with (1024 ^ 3). lia.
Qed.

Lemma formatBytes_unit_range_witness :
  formatBytes (fun _ => "") (Some (Number.of_Z 1048575)) = "1024.00 KB" /\
  exists n unit,
    formatBytes (fun _ => "") (Some (Number.of_Z 1048575))
    = fixed_digits n 2 +:+ " " +:+ unit /\
    100 <= n <= 102400 /\
    (unit = "KB" /\ 1048575 < 1024 ^ 2 \/ unit = "MB" /\ 1024 ^ 2 <= 1048575).
Proof.
  split; [vm_compute; reflexivity |].
  apply (formatBytes_unit_range (fun _ => "") 1048575). vm_compute.
  split; [discriminate | reflexivity].
Defined.

Lemma formatBytes_exact_witness :
  formatBytes (fun _ => "") (Some (Number.of_Z 1536)) = "1.50 KB".
Proof.
  rewrite (formatBytes_exact (fun _ => "") 1536).
  - vm_compute. reflexivity.
  - vm_compute. split; [discriminate | reflexivity].
Defined.

End FormatFacts.

(** ** The preview card *)

Section PreviewCard.

Import App Inv View Provenance.



(** The three ways [select] can go. *)
Lemma select_cases (f : string) (w : World) :
  select f w = w \/
  (truthy f = true /\
   ui (select f w) = setPreviewLoading true (setSelectedFile f (ui w)) /\
   previews (select f w)
   = <[next_id w := mkRun f false (S (generation w))]>
       (match cleanup w with
        | Some i => alter cancel i (previews w)
        | None => previews w
        end)) \/
  (truthy f = false /\
   ui (select f w) = setPreview None (setSelectedFile f (ui w)) /\
   previews (select f w)
   = match cleanup w with
     | Some i => alter cancel i (previews w)
     | None => previews w
     end).
Proof.
  unfold select. destruct (String.eqb f (selectedFile (ui w))); [auto |].
  right. unfold preview_effect, run_cleanup. simpl.
  destruct (cleanup w); simpl; destruct (truthy f); simpl; auto.
Qed.

Lemma cancel_lookup (w : World) (i : nat) (r : PreviewRun) :
  match cleanup w with
  | Some j => alter cancel j (previews w)
  | None => previews w
  end !! i = Some r ->
  exists r0, previews w !! i = Some r0 /\ run_file r = run_file r0.
Proof.
  destruct (cleanup w) as [j |]; [| eauto].
  intros H. apply lookup_alter_Some in H.
  destruct H as [(_ & r0 & H0 & ->) | (_ & H0)]; eauto.
Qed.

Lemma runs_named_select (f : string) (w : World) :
  runs_named w -> runs_named (select f w).
Proof.
  intros Hn. destruct (select_cases f w) as [-> | [(Hf & _ & Hp) | (_ & _ & Hp)]];
    [exact Hn | |]; intros i r; rewrite Hp.
  - intros H. apply lookup_insert_Some in H.
    destruct H as [(_ & <-) | (_ & H)]; [exact Hf |].
    destruct (cancel_lookup w i r H) as (r0 & H0 & ->). exact (Hn i r0 H0).
  - intros H. destruct (cancel_lookup w i r H) as (r0 & H0 & ->).
    exact (Hn i r0 H0).
Qed.

Lemma preview_side_select (f : string) (w0 w : World) :
  preview_side w0 = preview_side w -> next_id w0 = next_id w ->
  preview_side (select f w0) = preview_side (select f w).
Proof.
  unfold preview_side. intros [= Hs Hp Hl Hr Hc Hg] Hn.
  unfold select. rewrite Hs.
  destruct (String.eqb f (selectedFile (ui w)));
    [rewrite Hs, Hp, Hl, Hr, Hc, Hg; reflexivity |].
  unfold preview_effect, run_cleanup. simpl. rewrite Hc.
  destruct (cleanup w); simpl; destruct (truthy f); simpl;
    rewrite ?Hp, ?Hl, ?Hr, ?Hn, ?Hg; reflexivity.
Qed.

(** A step other than the completion of a preview request leaves the
    preview side alone or acts on it as one [setSelectedFile]. *)
Lemma step_preview_side (w w' : World) (e : Event) :
  step w e = Some w' ->
  (forall i r, e <> PreviewSettled i r) ->
  preview_side w' = preview_side w \/
  exists f, preview_side w' = preview_side (select f w).
Proof.
  destruct e as [| name | i r | i r]; simpl; intros Hs Hne.
  - destruct (loading (ui w)); [discriminate |]. injection Hs as <-.
    left. reflexivity.
  - destruct (has_row name (ui w)); [| discriminate]. injection Hs as <-.
    right. exists name. reflexivity.
  - destruct (refreshes w !! i) as [c |]; [| discriminate].
    injection Hs as <-. destruct r as [err | d]; [left; reflexivity |].
    unfold refresh_resolved.
    destruct (files d) as [[| first rest] |]; try (left; reflexivity).
    destruct (truthy c); simpl; [left; reflexivity |].
    right. exists (file_name first).
    change (preview_side
              (select (file_name first)
                      (with_ui (setPayload (Some d)) (drop_refresh i w)))
            = preview_side (select (file_name first) w)).
    apply preview_side_select; reflexivity.
  - exfalso. exact (Hne i r eq_refl).
Qed.

Lemma runs_named_side (w w' : World) :
  preview_side w' = preview_side w -> runs_named w -> runs_named w'.
Proof.
  unfold preview_side, runs_named. intros [= _ _ _ Hr _ _]. rewrite Hr. auto.
Qed.

Lemma runs_named_step (w w' : World) (e : Event) :
  runs_named w -> step w e = Some w' -> runs_named w'.
Proof.
  intros Hn Hs.
  destruct e as [| name | i r | i r].
  1-3: destruct (step_preview_side w w' _ Hs ltac:(discriminate))
         as [H | (f & H)];
       [exact (runs_named_side w w' H Hn)
       | exact (runs_named_side _ w' H (runs_named_select f w Hn))].
  destruct (previews w !! i) as [pr |] eqn:Hi;
    [| simpl in Hs; rewrite Hi in Hs; discriminate].
  rewrite (step_preview_settled w i pr r Hi) in Hs. injection Hs as <-.
  intros j rj Hj.
  assert (Hd : delete i (previews w) !! j = Some rj)
    by (destruct (cancelled pr); exact Hj).
  apply lookup_delete_Some in Hd. exact (Hn j rj (proj2 Hd)).
Qed.

Lemma loading_has_run_side (w w' : World) :
  preview_side w' = preview_side w -> loading_has_run w -> loading_has_run w'.
Proof.
  unfold preview_side, loading_has_run, live.
  intros [= Hs _ Hl Hr _ _]. rewrite Hs, Hl, Hr. auto.
Qed.

Lemma loading_has_run_select (f : string) (w : World) :
  loading_has_run w -> loading_has_run (select f w).
Proof.
  intros Hn.
  destruct (select_cases f w) as [-> | [(Hf & Hu & Hp) | (Hf & Hu & _)]];
    [exact Hn | |]; unfold loading_has_run, live; rewrite Hu; simpl.
  - intros _ _. exists (next_id w), (mkRun f false (S (generation w))).
    rewrite Hp, lookup_insert_eq. auto.
  - rewrite Hf. discriminate.
Qed.

Lemma loading_has_run_step (w w' : World) (e : Event) :
  loading_has_run w -> step w e = Some w' -> loading_has_run w'.
Proof.
  intros Hn Hs.
  destruct e as [| name | i r | i r].
  1-3: destruct (step_preview_side w w' _ Hs ltac:(discriminate))
         as [H | (f & H)];
       [exact (loading_has_run_side w w' H Hn)
       | exact (loading_has_run_side _ w' H (loading_has_run_select f w Hn))].
  destruct (previews w !! i) as [pr |] eqn:Hi;
    [| simpl in Hs; rewrite Hi in Hs; discriminate].
  rewrite (step_preview_settled w i pr r Hi) in Hs. injection Hs as <-.
  destruct (cancelled pr) eqn:Hc.
  - intros Ht Hl. destruct (Hn Ht Hl) as (j & rj & Hj & Hcj).
    exists j, rj. split; [| exact Hcj]. simpl.
    apply lookup_delete_Some. split; [| exact Hj].
    intros ->. congruence.
  - intros _. simpl. discriminate.
Qed.

Lemma preview_side_run (evs : list Event) :
  forall w w',
    runs_named w -> loading_has_run w -> run w evs = Some w' ->
    runs_named w' /\ loading_has_run w'.
Proof.
  induction evs as [| e evs IH]; intros w w' Hn Hl; simpl.
  - intros [= <-]. auto.
  - destruct (step w e) as [w1 |] eqn:Hs; [| discriminate].
    apply IH;
      [exact (runs_named_step w w1 e Hn Hs)
      | exact (loading_has_run_step w w1 e Hl Hs)].
Qed.













End PreviewCard.

(** ** Failed requests, from the backend to the screen *)

Section FailedRequests.

Import App Inv View Provenance Api.

Variable API_BASE : string.
Variable encodeURIComponent : string -> string.
Variable fetch : string -> FetchResult.
Variable json_summary : string -> Result SummaryPayload.
Variable json_preview : string -> Result PreviewPayload.

Lemma request_failed_truthy (r : Response) :
  truthy ("Request failed (" +:+ number_to_string (status r)
            +:+ "): " +:+ text r) = true.
Proof. reflexivity. Qed.

Lemma request_failed (T : Type) (json : string -> Result T) (url : string)
    (r : Response) :
  (status r < 200 \/ 299 < status r)%nat ->
  fetch url = Responded r ->
  requestJson fetch json url
  = inl (mkError (Some ("Request failed (" +:+ number_to_string (status r)
                          +:+ "): " +:+ text r))).
Proof.
  intros Hst Hf. unfold requestJson. rewrite Hf.
  replace (ok r) with false; [reflexivity |].
  symmetry. unfold ok. apply andb_false_iff.
  destruct Hst as [H | H]; [left | right]; apply Nat.leb_gt; lia.
Qed.

(** From the backend to the screen.  When the backend answers the summary
    request of a pending refresh with a status outside 200-299, the banner
    reads [Request failed (<status>): <body>] and the tables keep the
    payload they had; when it answers so the preview request for the
    selected file, the preview card shows that text. *)
Theorem failed_request_is_shown (w : World) (r : Response) :
  reachable w ->
  (status r < 200 \/ 299 < status r)%nat ->
  (forall i c,
      refreshes w !! i = Some c ->
      fetch (summary_url API_BASE) = Responded r ->
      exists w',
        step w (SummarySettled i (getSummary API_BASE fetch json_summary))
        = Some w' /\
        error_banner (ui w')
        = Some ("Request failed (" +:+ number_to_string (status r)
                  +:+ "): " +:+ text r) /\
        payload (ui w') = payload (ui w)) /\
  (forall i pr,
      live w i pr ->
      fetch (preview_url API_BASE encodeURIComponent (run_file pr) 20)
      = Responded r ->
      exists w',
        step w (PreviewSettled i
                  (getFilePreview API_BASE encodeURIComponent fetch
                                  json_preview (run_file pr) 20))
        = Some w' /\
        preview_area (ui w')
        = ErrorText ("Request failed (" +:+ number_to_string (status r)
                       +:+ "): " +:+ text r)).
Proof.
  intros Hreach Hst.
  pose proof (preview_inv_reachable w Hreach) as Hinv.
  split.
  - intros i c Hi Hf. unfold getSummary.
    rewrite (request_failed _ json_summary _ r Hst Hf).
    rewrite (step_summary_settled w i c _ Hi). eexists.
    split; [reflexivity |]. split; reflexivity.
  - intros i pr (Hi & Hc) Hf. unfold getFilePreview.
    rewrite (request_failed _ json_preview _ r Hst Hf).
    rewrite (step_preview_settled w i pr _ Hi), Hc. eexists.
    split; [reflexivity |].
    destruct Hreach as (evs & Hrun).
    destruct (preview_side_run evs mount w) as (Hn & _); [| | exact Hrun |].
    { intros j rj. simpl. rewrite lookup_empty. discriminate. }
    { intros Ht. simpl in Ht. discriminate. }
    destruct (pv_live w Hinv i pr Hi Hc) as (_ & _ & Hfile & _).
    unfold preview_area. simpl. rewrite <- Hfile, (Hn i pr Hi). reflexivity.
Qed.

End FailedRequests.

Section FailedRequestsExample.

Import App Inv View Provenance Api.

Lemma failed_request_is_shown_witness :
  exists w',
    step (Sample.after Sample.a_loading)
         (PreviewSettled 1
            (getFilePreview "http://localhost:8000" (fun s => s)
               (fun _ => Responded (mkResponse 404 "Not Found"))
               (fun _ => inl (mkError None)) "a.csv" 20))
    = Some w' /\
    preview_area (ui w') = ErrorText "Request failed (404): Not Found".
Proof.
  destruct (failed_request_is_shown
              "http://localhost:8000" (fun s => s)
              (fun _ => Responded (mkResponse 404 "Not Found"))
              (fun _ => inl (mkError None)) (fun _ => inl (mkError None))
              (Sample.after Sample.a_loading) (mkResponse 404 "Not Found"))
    as (_ & H).
  - exists Sample.a_loading. vm_compute. reflexivity.
  - right. simpl. lia.
  - destruct (H 1%nat (mkRun "a.csv" false 1)) as (w' & Hs & Hp).
    + split; vm_compute; reflexivity.
    + reflexivity.
    + exists w'. split; [exact Hs | exact Hp].
Defined.

End FailedRequestsExample.

(** ** The error banner *)

Section Banner.

Import App Inv View Provenance.

Lemma quiet_step (w w' : World) (e : Event) :
  quiet_while_loading w -> step w e = Some w' -> quiet_while_loading w'.
Proof.
  unfold quiet_while_loading. intros Hq.
  destruct e as [| name | i r | i r]; simpl.
  - destruct (loading (ui w)); [discriminate |]. intros [= <-]. reflexivity.
  - destruct (has_row name (ui w)); [| discriminate]. intros [= <-].
    destruct (select_frame name w) as (_ & Hl & He & _). rewrite Hl, He.
    exact Hq.
  - destruct (refreshes w !! i) as [c |]; [| discriminate]. intros [= <-].
    destruct r as [err | d]; [simpl; discriminate |].
    rewrite (proj1 (refresh_resolved_frame c d (drop_refresh i w))).
    discriminate.
  - destruct (previews w !! i) as [pr |]; [| discriminate]. intros [= <-].
    destruct r as [err | next]; unfold preview_rejected, preview_resolved;
      destruct (cancelled pr); exact Hq.
Qed.

Lemma quiet_run (evs : list Event) :
  forall w w',
    quiet_while_loading w -> run w evs = Some w' -> quiet_while_loading w'.
Proof.
  induction evs as [| e evs IH]; intros w w' H; simpl.
  - intros [= <-]. exact H.
  - destruct (step w e) as [w1 |] eqn:Hs; [| discriminate].
    apply IH. exact (quiet_step w w1 e H Hs).
Qed.

Lemma one_refresh_mount : one_refresh mount.
Proof. right. exists 0%nat, "". simpl. rewrite insert_empty. auto. Qed.

(** The error banner and the refresh flow: no banner is shown while a
    summary request is in flight, none after one completes successfully,
    and the banner shown after one fails is the failure's message (or the
    fallback text). *)
Theorem error_banner_follows_refresh (w : World) :
  reachable w ->
  (loading (ui w) = true -> error_banner (ui w) = None) /\
  (forall i d w',
      step w (SummarySettled i (inr d)) = Some w' ->
      error_banner (ui w') = None) /\
  (forall i err w',
      step w (SummarySettled i (inl err)) = Some w' ->
      error_banner (ui w') = Some (error_text err)).
Proof.
  intros (evs & Hrun).
  assert (Hq : quiet_while_loading w).
  { apply (quiet_run evs mount w); [| exact Hrun]. intros _. reflexivity. }
  pose proof (one_refresh_run evs mount w one_refresh_mount Hrun) as Hone.
  unfold error_banner. split; [| split].
  - intros Hl. rewrite (Hq Hl). reflexivity.
  - intros i d w'. simpl.
    destruct (refreshes w !! i) as [c |] eqn:Hi; [| discriminate].
    intros [= <-].
    destruct (refresh_resolved_frame c d (drop_refresh i w))
      as (_ & He & _). rewrite He. simpl.
    assert (Hl : loading (ui w) = true).
    { destruct Hone as [(He0 & _) | (j & c' & _ & Hl)]; [| exact Hl].
      rewrite He0, lookup_empty in Hi. discriminate. }
    rewrite (Hq Hl). reflexivity.
  - intros i err w'. simpl.
    destruct (refreshes w !! i) as [c |] eqn:Hi; [| discriminate].
    intros [= <-]. simpl. unfold error_text.
    destruct (message err) as [m |]; [| reflexivity].
    destruct (truthy m) eqn:Hm; [rewrite Hm |]; reflexivity.
Qed.

Lemma error_banner_follows_refresh_witness :
  error_banner (ui (Sample.after Sample.first_load_failed)) = Some "boom" /\
  error_banner (ui (Sample.after Sample.retry_after_failure)) = None /\
  exists w',
    step (Sample.after Sample.retry_after_failure)
         (SummarySettled 1 (inr Sample.two_files)) = Some w' /\
    error_banner (ui w') = None.
Proof.
  destruct (error_banner_follows_refresh
              (Sample.after Sample.retry_after_failure)) as (H1 & H2 & _).
  - exists Sample.retry_after_failure. vm_compute. reflexivity.
  - split; [vm_compute; reflexivity |].
    split; [apply H1; vm_compute; reflexivity |].
    exists (Sample.after (Sample.retry_after_failure
                          ++ [SummarySettled 1 (inr Sample.two_files)])).
    assert (Hs : step (Sample.after Sample.retry_after_failure)
                      (SummarySettled 1 (inr Sample.two_files))
                 = Some (Sample.after
                           (Sample.retry_after_failure
                            ++ [SummarySettled 1 (inr Sample.two_files)])))
      by (vm_compute; reflexivity).
    split; [exact Hs | exact (H2 _ _ _ Hs)].
Defined.

End Banner.

(** ** The stored payload *)

Section Payload.

Import App Inv View Provenance.

Lemma step_payload (w w' : World) (e : Event) :
  step w e = Some w' ->
  payload (ui w') = payload (ui w) \/
  exists i d, e = SummarySettled i (inr d) /\ payload (ui w') = Some d.
Proof.
  destruct e as [| name | i r | i r]; simpl.
  - destruct (loading (ui w)); [discriminate |]. intros [= <-]. auto.
  - destruct (has_row name (ui w)); [| discriminate]. intros [= <-].
    left. exact (proj1 (proj2 (proj2 (proj2 (select_frame name w))))).
  - destruct (refreshes w !! i) as [c |]; [| discriminate]. intros [= <-].
    destruct r as [err | d]; [auto |]. right. exists i, d.
    split; [reflexivity |].
    exact (proj1 (proj2 (proj2 (refresh_resolved_frame c d _)))).
  - destruct (previews w !! i) as [pr |]; [| discriminate]. intros [= <-].
    left. destruct r as [err | next];
      unfold preview_rejected, preview_resolved;
      destruct (cancelled pr); reflexivity.
Qed.

(** The stored payload is the body of the last summary request that
    succeeded: failures, clicks and previews never change or clear it. *)
Theorem payload_is_last_summary (evs : list Event) :
  forall w w',
    run w evs = Some w' ->
    payload (ui w') = last_summary evs (payload (ui w)).
Proof.
  induction evs as [| e evs IH]; intros w w'; simpl.
  - intros [= <-]. reflexivity.
  - destruct (step w e) as [w1 |] eqn:Hs; [| discriminate].
    intros Hrun. rewrite (IH w1 w' Hrun).
    destruct (step_payload w w1 e Hs) as [H | (i & d & -> & H)].
    + rewrite H. destruct e as [| name | i [err | d] | i r]; try reflexivity.
      simpl in Hs. destruct (refreshes w !! i) as [c |]; [| discriminate].
      injection Hs as <-.
      rewrite <- H.
      rewrite (proj1 (proj2 (proj2 (refresh_resolved_frame c d _)))).
      reflexivity.
    + rewrite H. reflexivity.
Qed.

Lemma payload_is_last_summary_witness :
  payload (ui (Sample.after Sample.loaded_then_failed))
  = Some Sample.two_files.
Proof.
  rewrite (payload_is_last_summary Sample.loaded_then_failed mount
             (Sample.after Sample.loaded_then_failed)).
  - reflexivity.
  - vm_compute. reflexivity.
Defined.

End Payload.

(** ** Outcomes of [requestJson] *)

Section ApiOutcome.

Import Api.


End ApiOutcome.

(** ** The extreme rates *)

Section Rates.

Lemma passing_all (cs : list CheckRecord) :
  Forall (fun c => status c = Some "pass") cs -> passing cs = length cs.
Proof.
  unfold passing. induction 1 as [| c cs Hc _ IH]; [reflexivity |].
  simpl. rewrite (proj2 (status_is_spec "pass" c) Hc). simpl.
  f_equal. exact IH.
Qed.

Lemma checkRate_all_pass (cs : list CheckRecord) :
  cs <> [] -> array_length_ok cs ->
  Forall (fun c => status c = Some "pass") cs ->
  checkRate cs = Number.of_Z 100.
Proof.
  intros Hne Hlen Hall. unfold checkRate.
  rewrite (passing_all cs Hall).
  destruct cs as [| c cs']; [congruence |].
  set (n := length (c :: cs')).
  assert (Hn : 0 < Z.of_nat n) by (unfold n; simpl; lia).
  replace (Nat.eqb n 0) with false by (unfold n; reflexivity).
  unfold Number.of_nat.
  destruct (rate_vs_exact (Z.of_nat n) (Z.of_nat n) Hn) as (z & Hz & _ & Hex);
    [lia | exact Hlen |].
  rewrite Hz. f_equal.
  assert (Hsplit : 2 * (Z.of_nat n * 100) + Z.of_nat n
                   = Z.of_nat n + 100 * (2 * Z.of_nat n)) by ring.
  rewrite Hsplit in Hex.
  rewrite Z.mod_add, Z.div_add in Hex by lia.
  rewrite Z.mod_small, Z.div_small in Hex by lia.
  apply Hex. lia.
Qed.

(** The extreme rates.  A list of checks that all pass has a rate of
    exactly 100, and one in which none passes a rate of 0; but a rate of
    100 does not say that every check passes (399 of 400 do), nor a rate
    of 0 that none does (1 of 400 does). *)
Theorem checkRate_extremes :
  (forall cs,
      cs <> [] -> array_length_ok cs ->
      Forall (fun c => status c = Some "pass") cs ->
      checkRate cs = Number.of_Z 100) /\
  (forall cs,
      array_length_ok cs -> passing cs = 0%nat ->
      checkRate cs = Number.of_Z 0) /\
  checkRate (repeat (Sample.check "pass") 399 ++ [Sample.check "fail"])
  = Number.of_Z 100 /\
  checkRate (Sample.check "pass" :: repeat (Sample.check "fail") 399)
  = Number.of_Z 0.
Proof.
  split; [exact checkRate_all_pass |].
  split; [exact checkRate_none_passing |].
  split; vm_compute; reflexivity.
Qed.

End Rates.
